(** * ligo-skymap-plot: a shallow embedding of [ligo/skymap/tool/ligo_skymap_plot.py]

    The tool is a linear script: parse the command line, read a HEALPix sky
    map, convert it to probability per square degree, and issue a sequence
    of plotting calls.  The embedding keeps that shape:

    - IEEE binary64 numbers are Rocq's primitive [float]s, so that numpy's
      elementwise arithmetic evaluates here exactly as it does in Python;
    - the metadata dictionary is a [gmap string pyval];
    - exceptions and the sequence of plotting calls are threaded by a small
      writer/error monad [M];
    - functions of external packages (healpy, astropy, matplotlib, sqlite3)
      and of modules of this package that are not part of the tool are
      fields of the record [Env]; plotting calls are recorded in the trace
      with their arguments and return.

    The file has the definitions first (the built-ins, the parser, [main],
    what a trace shows, a sample world), then the properties: the order
    of [numpy.sort], sorting and searching, the monad, the parser, the
    parts of [main], the claims C1 to C10, and further properties of
    the parser and of the blocks of [main]. *)

From Stdlib Require Import ZArith Lia List String Ascii Floats Uint63 Sorted.
From stdpp Require Import base option list strings gmap pretty.

Local Open Scope Z_scope.

(** ** Python values, exceptions, plotting calls *)

(** Values that occur in the sky map metadata dictionary. *)
Inductive pyval : Type :=
| PyNone
| PyBool (b : bool)
| PyInt (z : Z)
| PyFloat (x : float)
| PyStr (s : string).

Inductive exn : Type :=
| KeyError (key : string)
| ValueError (msg : string)
| NameError (var : string)
| FileNotFoundError (path : string)
| SystemExit (code : Z)
| LibraryError (origin : string).

(** The stream bound to the positional argument by [argparse.FileType]. *)
Inductive pyfile : Type :=
| sys_stdin
| opened (path mode : string).

Definition file_name (f : pyfile) : string :=
  match f with
  | sys_stdin => "<stdin>"
  | opened path _ => path
  end.

(** Observable calls, in program order.  Keyword arguments that the tool
    passes as literals are kept so that a call can be read off the source. *)
Inductive call : Type :=
| builtin_open (path mode : string)
| fits_read (filename : string) (nest : pyval)
| plt_axes (projection obstime : string)
| ax_grid
| ax_imshow_hpx (data : list float) (frame : string) (nested : pyval)
                (vmin vmax : float)
| plot_colorbar
| cb_set_label (label : string)
| ax_contour_hpx (data : list float) (frame : string) (nested : pyval)
                 (colors : string) (linewidths : float) (levels : list float)
| plt_clabel (cs : list float) (fmt : string) (fontsize : Z) (inline : bool)
| plt_plot (verts : list (list float)) (color : string) (linewidth : float)
           (transform : string)
| ax_plot_coord (ra dec : float) (unit marker : string)
                (markerfacecolor markeredgecolor : string) (markersize : Z)
| plot_outline_text
| ax_text (x y : Z) (s : string) (ha : string)
| opts_output.

(** ** The monad: a trace of calls and either an exception or a value *)

Definition M (A : Type) : Type := list call * (exn + A).

Definition trace {A} (m : M A) : list call := fst m.
Definition outcome {A} (m : M A) : exn + A := snd m.

Definition raise {A} (e : exn) : M A := ([], inl e).
(** A call that is recorded.  It is taken to return: the exceptions that
    the plotting library may raise inside a call are not part of the
    embedding. *)
Definition emit (c : call) : M unit := ([c], inr tt).
(** The result of an external function that draws nothing. *)
Definition extern {A} (r : exn + A) : M A := ([], r).

#[global] Instance M_ret : MRet M := fun A a => ([], inr a).
#[global] Instance M_bind : MBind M := fun A B f m =>
  match m with
  | (t, inl e) => (t, inl e)
  | (t, inr a) => let '(t', r) := f a in (t ++ t', r)
  end.

(** [try: body / except <handled>: handler / else: orelse]. *)
Definition try_except_else {A B} (body : M A) (handled : exn -> bool)
    (handler : M B) (orelse : A -> M B) : M B :=
  match body with
  | (t, inl e) =>
      if handled e then let '(t', r) := handler in (t ++ t', r)
      else (t, inl e)
  | (t, inr a) => let '(t', r) := orelse a in (t ++ t', r)
  end.

Definition is_KeyError (e : exn) : bool :=
  match e with KeyError _ => true | _ => false end.

(** [d[key]] on a dictionary. *)
Definition getitem (d : gmap string pyval) (key : string) : M pyval :=
  match d !! key with
  | Some v => mret v
  | None => raise (KeyError key)
  end.

(** [for x in xs: body x]. *)
Fixpoint for_each {A} (xs : list A) (body : A -> M unit) : M unit :=
  match xs with
  | [] => mret tt
  | x :: xs' => body x ;; for_each xs' body
  end.

(** ** The environment: everything the tool calls but does not define *)

Record Env : Type := {
  (** [open(path, 'rb')] as used by [argparse.FileType('rb')]. *)
  can_open : string -> bool;
  (** Whether [command.SQLiteType('r')] returns a connection for the file
      name; the connection is known by the name of its file. *)
  can_connect : string -> bool;
  (** What [ligo.skymap.io.fits.read_sky_map(name, nest=None)] returns; the
      call itself is recorded as [fits_read]. *)
  fits_read_sky_map : string -> exn + (list float * gmap string pyval);
  (** [healpy.npix2nside]. *)
  hp_npix2nside : nat -> exn + Z;
  (** [healpy.nside2pixarea(nside, degrees=True)]. *)
  hp_nside2pixarea : Z -> exn + float;
  (** [Time(t, format='gps').utc.isot]. *)
  Time_gps_utc_isot : pyval -> exn + string;
  (** [ndarray.max()]. *)
  ndarray_max : list float -> exn + float;
  (** [ligo.skymap.bayestar.postprocess.find_greedy_credible_levels]. *)
  find_greedy_credible_levels : list float -> exn + list float;
  (** [rcParams['text.usetex']]. *)
  text_usetex : bool;
  (** The ['coordinates'] of each entry of [json.load(f)['geometries']] of
      the coastline file shipped with [ligo.skymap.plot]. *)
  coastline_geometries : exn + list (list (list float));
  (** [connection.execute(query, (param,)).fetchall()] on the database
      opened from the given file. *)
  execute_fetchall : string -> string -> pyval -> exn + list (float * float);
  (** Whether [SkyCoord(ra, dec, unit='deg')] accepts the coordinates. *)
  SkyCoord_deg : float -> float -> exn + unit;
  (** [str(v)], as used by ['{}'.format(v)]. *)
  py_str : pyval -> string
}.

(** ** numpy and Python built-ins on binary64 numbers *)

Section Numpy.
Local Open Scope float_scope.

(** [numpy.pi], the double nearest to pi. *)
Definition np_pi : float := 0x1.921fb54442d18p+1.

(** [numpy.rad2deg]: multiplication by the constant [180.0 / pi]. *)
Definition np_rad2deg (x : float) : float := x * (180 / np_pi).

(** [numpy.round] with zero decimals is [rint]: the nearest integer, ties
    to even.  Below [2^52] adding and subtracting [2^52] rounds to an
    integer in the default rounding mode; from [2^52] on every double is
    an integer already.  The sign is kept, so [-0.3] rounds to [-0.0]. *)
Definition two52 : float := 0x1p+52.

Definition np_round (x : float) : float :=
  if abs x <? two52 then
    let r := (abs x + two52) - two52 in
    if get_sign x then - r else r
  else x.

(** The integer part of a finite double, [None] for infinities and nan. *)
Definition float_trunc (x : float) : option Z :=
  match Prim2SF x with
  | S754_zero _ => Some 0%Z
  | S754_finite s m e =>
      let v := Z.shiftl (Z.pos m) e in Some (if s then (- v)%Z else v)
  | S754_infinity _ | S754_nan => None
  end.

(** [ndarray.astype(int)] from float64 to int64: truncation; what does not
    fit (also nan and the infinities) becomes the smallest int64, as the
    conversion instruction of x86-64 has it. *)
Definition int64_min : Z := (- 2 ^ 63)%Z.

Definition astype_int (x : float) : Z :=
  match float_trunc x with
  | Some z => if ((int64_min <=? z) && (z <? 2 ^ 63))%Z then z else int64_min
  | None => int64_min
  end.

(** An int64 count converted to float64, as numpy does before multiplying
    an integer array by a float. *)
Definition float_of_nat (n : nat) : float :=
  of_uint63 (Uint63.of_Z (Z.of_nat n)).

(** numpy's order on doubles for sorting and searching: nan is larger than
    every number. *)
Definition np_lt (a b : float) : bool :=
  (a <? b) || (is_nan b && negb (is_nan a)).

(** [numpy.sort] (ascending, nan last), as a stable insertion sort. *)
Fixpoint np_insert (x : float) (l : list float) : list float :=
  match l with
  | [] => [x]
  | y :: l' => if np_lt x y then x :: l else y :: np_insert x l'
  end.

Definition np_sort (l : list float) : list float := foldr np_insert [] l.

(** [numpy.searchsorted(a, v)] with the default [side='left'] for one key:
    the binary search between the indices [lo] and [hi]. *)
Fixpoint bisect_left (fuel : nat) (a : list float) (v : float)
    (lo hi : nat) : nat :=
  match fuel with
  | O => lo
  | S fuel' =>
      if (lo <? hi)%nat then
        let mid := (lo + (hi - lo) / 2)%nat in
        match a !! mid with
        | Some x =>
            if np_lt x v then bisect_left fuel' a v (S mid) hi
            else bisect_left fuel' a v lo mid
        | None => lo
        end
      else lo
  end.

Definition searchsorted1 (a : list float) (v : float) : nat :=
  bisect_left (length a) a v 0 (length a).

Definition np_searchsorted (a : list float) (vs : list float) : list nat :=
  map (searchsorted1 a) vs.

(** The number of entries of [l] that satisfy [f]. *)
Fixpoint count_if {A} (f : A -> bool) (l : list A) : nat :=
  match l with
  | [] => 0
  | x :: l' => (if f x then 1 else 0) + count_if f l'
  end.

End Numpy.

(** ** Text formatting *)

Section Formatting.

(** ['{:d}'.format(z)]. *)
Definition format_d (z : Z) : string := pretty z.

(** The quotient [n / d] rounded to the nearest integer, ties to even. *)
Definition div_half_even (n d : Z) : Z :=
  let q := n / d in
  match 2 * (n mod d) ?= d with
  | Lt => q
  | Gt => q + 1
  | Eq => if Z.even q then q else q + 1
  end.

(** [10^x <= n/d], for positive [n] and [d]. *)
Definition pow10_le (x n d : Z) : bool :=
  if 0 <=? x then 10 ^ x * d <=? n else d <=? n * 10 ^ (- x).

(** The decimal exponent of [n/d]: the largest [x] with [10^x <= n/d],
    searched downwards from [x]. *)
Fixpoint decimal_exponent (fuel : nat) (x n d : Z) : Z :=
  match fuel with
  | O => x
  | S fuel' =>
      if pow10_le x n d then x else decimal_exponent fuel' (x - 1) n d
  end.

(** Where the search starts: with [k := log2 n + 1 - log2 d] the quotient
    lies between [2^(k-2)] and [2^k], so its decimal exponent is below
    [k * log10 2] and at most three less than the bound taken here. *)
Definition decimal_exponent_bound (n d : Z) : Z :=
  let k := Z.log2 n + 1 - Z.log2 d in
  (if 0 <=? k then k * 30103 / 100000 else k * 30102 / 100000) + 1.

(** [n/d] in scientific notation with [p] significant digits: the integer
    of the [p] digits and the decimal exponent of the first one. *)
Definition significant_digits (p n d : Z) : Z * Z :=
  let x := decimal_exponent 8 (decimal_exponent_bound n d) n d in
  let s := p - 1 - x in
  let q := if 0 <=? s then div_half_even (n * 10 ^ s) d
           else div_half_even n (d * 10 ^ (- s)) in
  if q =? 10 ^ p then (10 ^ (p - 1), x + 1) else (q, x).

Fixpoint strip_zeros_rev (l : list ascii) : list ascii :=
  match l with
  | "0"%char :: l' => strip_zeros_rev l'
  | _ => l
  end.

Definition strip_trailing_zeros (l : list ascii) : list ascii :=
  rev (strip_zeros_rev (rev l)).

Definition with_fraction (int_part frac : list ascii) : list ascii :=
  match strip_trailing_zeros frac with
  | [] => int_part
  | f => int_part ++ "."%char :: f
  end.

(** The exponent suffix of C's [%e]: a sign and at least two digits. *)
Definition exponent_suffix (x : Z) : string :=
  let a := pretty (Z.abs x) in
  String "e" (String (if x <? 0 then "-"%char else "+"%char)
    (if Z.abs x <? 10 then String "0" a else a)).

(** ['%g' % x] for a positive number [m * 2^e], default precision 6. *)
Definition format_g_pos (m : positive) (e : Z) : string :=
  let '(n, d) := if 0 <=? e then (Z.pos m * 2 ^ e, 1)
                 else (Z.pos m, 2 ^ (- e)) in
  let '(q, x) := significant_digits 6 n d in
  let digits := list_ascii_of_string (pretty q) in
  if (-4 <=? x) && (x <? 6) then
    if 0 <=? x then
      string_of_list_ascii
        (with_fraction (take (Z.to_nat (x + 1)) digits)
                       (drop (Z.to_nat (x + 1)) digits))
    else
      string_of_list_ascii
        (with_fraction ["0"%char]
           (replicate (Z.to_nat (- x - 1)) "0"%char ++ digits))
  else
    string_of_list_ascii (with_fraction (take 1 digits) (drop 1 digits))
    +:+ exponent_suffix x.

(** ['%g' % x] for a Python float. *)
Definition format_g (x : float) : string :=
  match Prim2SF x with
  | S754_nan => "nan"
  | S754_infinity s => if s then "-inf" else "inf"
  | S754_zero s => if s then "-0" else "0"
  | S754_finite s m e =>
      if s then String "-" (format_g_pos m e) else format_g_pos m e
  end.

(** [fmt % x] for the format strings the tool uses: ['%g'] converts the
    argument, ['%%'] is a percent sign, any other character is copied. *)
Fixpoint percent_format (fmt : string) (x : float) : string :=
  match fmt with
  | String "%" (String "g" rest) => format_g x +:+ percent_format rest x
  | String "%" (String "%" rest) => String "%" (percent_format rest x)
  | String c rest => String c (percent_format rest x)
  | EmptyString => EmptyString
  end.

(** ['\n'.join(lines)]. *)
Fixpoint join_lines (lines : list string) : string :=
  match lines with
  | [] => ""
  | [l] => l
  | l :: ls => l +:+ String "010" (join_lines ls)
  end.

End Formatting.

(** ** [parser()]: the command line *)

(** The namespace returned by [parse_args()]. *)
Record Namespace : Type := {
  annotate : bool;
  contour : option (list float);
  colorbar : bool;
  radec : list (float * float);
  inj_database : option string;
  geo : bool;
  input : pyfile
}.

(** One occurrence of an argument on the command line, already split into
    the option and its values, the numbers converted.  These are the
    seven arguments that [parser()] declares itself; the figure options
    of the parent [command.figure_parser] and [--help] are not among
    them. *)
Inductive argument : Type :=
| arg_annotate
| arg_contour (percent : list float)
| arg_colorbar
| arg_radec (ra dec : float)
| arg_inj_database (file : string)
| arg_geo
| arg_input (path : string).

(** The namespace while the command line is read; the positional [input]
    is [None] until it has been seen. *)
Record Partial : Type := {
  p_annotate : bool;
  p_contour : option (list float);
  p_colorbar : bool;
  p_radec : list (float * float);
  p_inj_database : option string;
  p_geo : bool;
  p_input : option pyfile
}.

(** [parser()]: the seven arguments it declares, with their defaults (the
    default ['-'] of the positional is applied in [parse_args]); their
    types and actions are in [FileType_rb] and [take_action]. *)
Definition parser : Partial :=
  {| p_annotate := false;
     p_contour := None;
     p_colorbar := false;
     p_radec := [];
     p_inj_database := None;
     p_geo := false;
     p_input := None |}.

(** [argparse.FileType('rb')]: ['-'] is the standard input, anything else
    is opened; a file that cannot be opened is a usage error. *)
Definition FileType_rb (E : Env) (path : string) : M pyfile :=
  if String.eqb path "-" then mret sys_stdin
  else if can_open E path then
    emit (builtin_open path "rb") ;; mret (opened path "rb")
  else raise (SystemExit 2).

(** [command.SQLiteType('r')], the [type] of [--inj-database]: argparse
    calls it on the value when it reads the option, and a value that it
    refuses is a usage error. *)
Definition SQLiteType_r (E : Env) (file : string) : M string :=
  if can_connect E file then mret file else raise (SystemExit 2).

(** The action of one argument: [store_true], [store] (the last occurrence
    wins), [append], and the single optional positional. *)
Definition take_action (E : Env) (ns : Partial) (a : argument) : M Partial :=
  let '(Build_Partial an co cb rd db ge inp) := ns in
  match a with
  | arg_annotate => mret (Build_Partial true co cb rd db ge inp)
  | arg_contour [] => raise (SystemExit 2)
  | arg_contour percent => mret (Build_Partial an (Some percent) cb rd db ge inp)
  | arg_colorbar => mret (Build_Partial an co true rd db ge inp)
  | arg_radec ra dec => mret (Build_Partial an co cb (rd ++ [(ra, dec)]) db ge inp)
  | arg_inj_database file =>
      connection ← SQLiteType_r E file;
      mret (Build_Partial an co cb rd (Some connection) ge inp)
  | arg_geo => mret (Build_Partial an co cb rd db true inp)
  | arg_input path =>
      match inp with
      | Some _ => raise (SystemExit 2)
      | None =>
          f ← FileType_rb E path;
          mret (Build_Partial an co cb rd db ge (Some f))
      end
  end.

Fixpoint take_actions (E : Env) (ns : Partial) (argv : list argument)
    : M Partial :=
  match argv with
  | [] => mret ns
  | a :: argv' => ns' ← take_action E ns a; take_actions E ns' argv'
  end.

(** [parser().parse_args()]: an absent positional takes its default
    ['-'], converted by [FileType('rb')] like a given one. *)
Definition parse_args (E : Env) (argv : list argument) : M Namespace :=
  ns ← take_actions E parser argv;
  f ← match p_input ns with
      | Some f => mret f
      | None => FileType_rb E "-"
      end;
  mret {| annotate := p_annotate ns; contour := p_contour ns;
          colorbar := p_colorbar ns; radec := p_radec ns;
          inj_database := p_inj_database ns; geo := p_geo ns;
          input := f |}.

(** ** [main()] *)

(** The star drawn for one marker. *)
Definition marker_call (radec : float * float) : call :=
  ax_plot_coord radec.1 radec.2 "deg" "*" "white" "black" 10.

Section Main.
Local Open Scope float_scope.
Variable E : Env.

(** Truth value of [opts.contour]: [None] and the empty list are false. *)
Definition truthy {A} (o : option (list A)) : bool :=
  match o with
  | Some (_ :: _) => true
  | _ => false
  end.

(** [zip] applied to the rows as separate arguments: the columns of
    [rows], as long as every row has one. *)
Fixpoint zip_star_aux (first : list float) (rows : list (list float))
    : list (list float) :=
  match first with
  | [] => []
  | _ :: first' =>
      match mapM head rows with
      | Some column => column :: zip_star_aux first' (map tail rows)
      | None => []
      end
  end.

Definition zip_star (rows : list (list float)) : list (list float) :=
  match rows with
  | [] => []
  | first :: _ => zip_star_aux first rows
  end.

(** [(ra, dec), = rows]. *)
Definition unpack_single {A} (rows : list A) : M A :=
  match rows with
  | [row] => mret row
  | [] => raise (ValueError "not enough values to unpack (expected 1, got 0)")
  | _ :: _ :: _ => raise (ValueError "too many values to unpack (expected 1)")
  end.

Definition query : string :=
"SELECT DISTINCT longitude, latitude FROM sim_inspiral AS si
                   INNER JOIN coinc_event_map AS cm1
                   ON (si.simulation_id = cm1.event_id)
                   INNER JOIN coinc_event_map AS cm2
                   ON (cm1.coinc_event_id = cm2.coinc_event_id)
                   WHERE cm2.event_id = ?".

(** The local variables that later statements of [main] read. *)
Record Locals : Type := {
  skymap : list float;
  metadata : gmap string pyval;
  deg2perpix : float;
  probperdeg2 : list float;
  cls : option (list float)
}.

(** Lines 80-119: read the sky map, convert it, draw the axes, the image,
    the colorbar, the contours and the continents. *)
Definition draw_map (opts : Namespace) : M Locals :=
  emit (fits_read (file_name (input opts)) PyNone) ;;
  '(skymap, metadata) ← extern (fits_read_sky_map E (file_name (input opts)));
  nside ← extern (hp_npix2nside E (length skymap));
  (* Convert sky map from probability to probability per square degree. *)
  deg2perpix ← extern (hp_nside2pixarea E nside);
  let probperdeg2 := map (fun x => x / deg2perpix) skymap in
  gps_time ← getitem metadata "gps_time";
  obstime ← extern (Time_gps_utc_isot E gps_time);
  emit (plt_axes (if geo opts then "geo degrees mollweide"
                  else "astro hours mollweide") obstime) ;;
  emit ax_grid ;;
  (* Plot sky map. *)
  vmax ← extern (ndarray_max E probperdeg2);
  nest ← getitem metadata "nest";
  emit (ax_imshow_hpx probperdeg2 "ICRS" nest 0 vmax) ;;
  (* Add colorbar. *)
  (if colorbar opts then
     emit plot_colorbar ;; emit (cb_set_label "prob. per deg$^2$")
   else mret tt) ;;
  (* Add contours. *)
  cls ← (if truthy (contour opts) then
           levels ← extern (find_greedy_credible_levels E skymap);
           let cls := map (fun x => 100 * x) levels in
           nest ← getitem metadata "nest";
           let cs := default [] (contour opts) in
           emit (ax_contour_hpx cls "ICRS" nest "k" 0.5 cs) ;;
           let fmt := if text_usetex E then "%g\%%" else "%g%%" in
           emit (plt_clabel cs fmt 6 true) ;;
           mret (Some cls)
         else mret None);
  (* Add continents. *)
  (if geo opts then
     geoms ← extern (coastline_geometries E);
     let verts := flat_map zip_star geoms in
     emit (plt_plot verts "0.5" 0.5 "world")
   else mret tt) ;;
  mret {| skymap := skymap; metadata := metadata; deg2perpix := deg2perpix;
          probperdeg2 := probperdeg2; cls := cls |}.

(** Lines 121-131: the markers asked for, and the injection if a database
    is given.  [radecs] is the list object of [opts.radec] itself, which
    [append] extends in place; nothing reads [opts.radec] afterwards, so
    the list is passed on by value. *)
Definition collect_radecs (opts : Namespace) (metadata : gmap string pyval)
    : M (list (float * float)) :=
  let radecs := radec opts in
  match inj_database opts with
  | Some db =>
      objid ← getitem metadata "objid";
      rows ← extern (execute_fetchall E db query objid);
      '(ra, dec) ← unpack_single rows;
      mret (radecs ++ [(np_rad2deg ra, np_rad2deg dec)])
  | None => mret radecs
  end.

(** Lines 133-137: add markers (e.g., for injections or external
    triggers). *)
Definition add_markers (radecs : list (float * float)) : M unit :=
  for_each radecs (fun '(ra, dec) =>
    extern (SkyCoord_deg E ra dec) ;;
    emit (marker_call (ra, dec))).

(** Lines 151-157: one line of text per contour level. *)
Definition area_lines (percent : list float) (cls : list float)
    (deg2perpix : float) : list string :=
  let pp := map (fun p => astype_int (np_round p)) percent in
  let ii := map (fun n => astype_int (np_round (float_of_nat n * deg2perpix)))
                (np_searchsorted (np_sort cls) percent) in
  map (fun '(i, p) => format_d p +:+ "% area: " +:+ format_d i +:+ " deg²")
      (zip ii pp).

(** Lines 142-158. *)
Definition annotate_plot (opts : Namespace) (st : Locals) : M unit :=
  if annotate opts then
    text ← try_except_else (getitem (metadata st) "objid") is_KeyError
             (mret [])
             (fun objid => mret ["event ID: " +:+ py_str E objid]);
    text ← (if truthy (contour opts) then
              match cls st with
              | Some cls =>
                  mret (text ++ area_lines (default [] (contour opts)) cls
                                  (deg2perpix st))
              | None => raise (NameError "cls")
              end
            else mret text);
    emit (ax_text 1 1 (join_lines text) "right")
  else mret tt.

(** Lines 121-140, given the locals of [draw_map]. *)
Definition mark (opts : Namespace) (st : Locals) : M unit :=
  radecs ← collect_radecs opts (metadata st);
  add_markers radecs ;;
  (* Add a white outline to all text to make it stand out. *)
  emit plot_outline_text.

Definition run (opts : Namespace) : M unit :=
  st ← draw_map opts;
  mark opts st ;;
  annotate_plot opts st ;;
  (* Show or save output. *)
  emit opts_output.

Definition main (argv : list argument) : M unit :=
  opts ← parse_args E argv;
  run opts.

(** The run up to line 119, with the namespace and the locals it leaves. *)
Definition before_markers (argv : list argument) : M (Namespace * Locals) :=
  opts ← parse_args E argv;
  st ← draw_map opts;
  mret (opts, st).

(** The run up to line 140. *)
Definition before_annotation (argv : list argument)
    : M (Namespace * Locals) :=
  '(opts, st) ← before_markers argv;
  mark opts st ;;
  mret (opts, st).

End Main.

(** ** What a command line asks for *)

Definition given_annotate (argv : list argument) : bool :=
  existsb (fun a => match a with arg_annotate => true | _ => false end) argv.

Definition given_colorbar (argv : list argument) : bool :=
  existsb (fun a => match a with arg_colorbar => true | _ => false end) argv.

Definition given_geo (argv : list argument) : bool :=
  existsb (fun a => match a with arg_geo => true | _ => false end) argv.

(** Every [--radec] pair, in the order given. *)
Definition given_radec (argv : list argument) : list (float * float) :=
  flat_map (fun a => match a with arg_radec ra dec => [(ra, dec)] | _ => [] end)
           argv.

(** The percentages of the last [--contour]. *)
Definition last_contour (acc : option (list float)) (a : argument)
    : option (list float) :=
  match a with arg_contour ps => Some ps | _ => acc end.

Definition given_contour (argv : list argument) : option (list float) :=
  fold_left last_contour argv None.

(** The file of the last [--inj-database]. *)
Definition last_inj_database (acc : option string) (a : argument)
    : option string :=
  match a with arg_inj_database f => Some f | _ => acc end.

Definition given_inj_database (argv : list argument) : option string :=
  fold_left last_inj_database argv None.

(** The positional argument. *)
Definition given_input (argv : list argument) : option string :=
  head (flat_map (fun a => match a with arg_input p => [p] | _ => [] end) argv).

(** The stream for the positional argument, and the files opened for it. *)
Definition file_of (p : string) : pyfile :=
  if String.eqb p "-" then sys_stdin else opened p "rb".

Definition input_file (argv : list argument) : pyfile :=
  match given_input argv with
  | Some p => file_of p
  | None => sys_stdin
  end.

Definition opens (argv : list argument) : list call :=
  match given_input argv with
  | Some p => if String.eqb p "-" then [] else [builtin_open p "rb"]
  | None => []
  end.

Definition namespace_of (argv : list argument) : Namespace :=
  {| annotate := given_annotate argv;
     contour := given_contour argv;
     colorbar := given_colorbar argv;
     radec := given_radec argv;
     inj_database := given_inj_database argv;
     geo := given_geo argv;
     input := input_file argv |}.

(** ** What a trace shows *)

Section Observations.
Local Open Scope float_scope.

(** The calls of a [draw_map] that returns. *)
Definition map_calls (E : Env) (opts : Namespace) (st : Locals)
    (obstime : string) (vmax : float) (nest : pyval) : list call :=
  [fits_read (file_name (input opts)) PyNone;
   plt_axes (if geo opts then "geo degrees mollweide"
             else "astro hours mollweide") obstime;
   ax_grid;
   ax_imshow_hpx (probperdeg2 st) "ICRS" nest 0 vmax]
  ++ (if colorbar opts
      then [plot_colorbar; cb_set_label "prob. per deg$^2$"] else [])
  ++ match cls st with
     | Some cls =>
         [ax_contour_hpx cls "ICRS" nest "k" 0.5 (default [] (contour opts));
          plt_clabel (default [] (contour opts))
            (if text_usetex E then "%g\%%" else "%g%%") 6 true]
     | None => []
     end
  ++ (if geo opts then
        match coastline_geometries E with
        | inr geoms => [plt_plot (flat_map zip_star geoms) "0.5" 0.5 "world"]
        | inl _ => []
        end
      else []).

(** The part of [main] that issues a call: the parser, [draw_map], [mark],
    [annotate_plot], the output. *)
Definition stage_of (c : call) : nat :=
  match c with
  | builtin_open _ _ => 0
  | fits_read _ _ | plt_axes _ _ | ax_grid | ax_imshow_hpx _ _ _ _ _
  | plot_colorbar | cb_set_label _ | ax_contour_hpx _ _ _ _ _ _
  | plt_clabel _ _ _ _ | plt_plot _ _ _ _ => 1
  | ax_plot_coord _ _ _ _ _ _ _ | plot_outline_text => 2
  | ax_text _ _ _ _ => 3
  | opts_output => 4
  end.

Definition is_marker (c : call) : bool :=
  match c with ax_plot_coord _ _ _ _ _ _ _ => true | _ => false end.

(** The markers drawn, in order. *)
Definition markers (t : list call) : list call := List.filter is_marker t.

(** The calls that read the sky map, and those that write the figure. *)
Definition is_fits_read (c : call) : bool :=
  match c with fits_read _ _ => true | _ => false end.

Definition is_output (c : call) : bool :=
  match c with opts_output => true | _ => false end.

(** The texts that [plt.clabel(cs, fmt=fmt)] puts on the contour lines:
    matplotlib formats each level of the contour set as [fmt % level]. *)
Definition label_texts (t : list call) : list string :=
  flat_map (fun c => match c with
                     | plt_clabel cs fmt _ _ => map (percent_format fmt) cs
                     | _ => []
                     end) t.

(** The text of each [ax.text] call. *)
Definition annotation_texts (t : list call) : list string :=
  flat_map (fun c => match c with ax_text _ _ s _ => [s] | _ => [] end) t.

(** The first line of the annotation, if the event is known. *)
Definition event_line (E : Env) (md : gmap string pyval) : list string :=
  match md !! "objid" with
  | Some objid => ["event ID: " +:+ py_str E objid]
  | None => []
  end.

(** The area lines of the annotation of a run that has got that far. *)
Definition contour_area_lines (opts : Namespace) (st : Locals) : list string :=
  if truthy (contour opts) then
    match cls st with
    | Some cls => area_lines (default [] (contour opts)) cls (deg2perpix st)
    | None => []
    end
  else [].

(** The number of credible levels below a percentage. *)
Definition pixels_below (cls : list float) (p : float) : nat :=
  count_if (fun c => c <? p) cls.

(** The area line for one percentage, in the words of the specification:
    the rounded percentage, and the rounded area of the pixels whose
    credible level is below the percentage. *)
Definition area_line (cls : list float) (pixarea : float) (p : float)
    : string :=
  format_d (astype_int (np_round p)) +:+ "% area: " +:+
  format_d (astype_int (np_round (float_of_nat (pixels_below cls p) * pixarea)))
  +:+ " deg²".

(** The percentage as the annotation shows it. *)
Definition annotated_percent (p : float) : string :=
  format_d (astype_int (np_round p)).

(** A whole number of percent is shown alike by the label formats and
    by the annotation. *)
Definition whole_percent_agrees (n : nat) : bool :=
  String.eqb (percent_format "%g%%" (float_of_nat n)) (pretty n +:+ "%")
  && String.eqb (percent_format "%g\%%" (float_of_nat n)) (pretty n +:+ "\%")
  && String.eqb (annotated_percent (float_of_nat n)) (pretty n).

(** "The percent values on the contour labels agree with those of the
    annotation": every label is the annotation's percentage followed by
    the percent sign of the label format. *)
Definition labels_agree_with_annotation (E : Env) (argv : list argument)
    : Prop :=
  forall ps, given_contour argv = Some ps ->
    label_texts (trace (main E argv)) =
    map (fun p => annotated_percent p +:+
                  (if text_usetex E then "\%" else "%")) ps.

End Observations.

(** ** When the command line is accepted *)

(** Every positional argument, in the order given. *)
Definition positionals (argv : list argument) : list string :=
  flat_map (fun a => match a with arg_input p => [p] | _ => [] end) argv.

Definition is_empty_contour (a : argument) : bool :=
  match a with arg_contour [] => true | _ => false end.

(** What [FileType('rb')] accepts. *)
Definition readable (E : Env) (path : string) : bool :=
  String.eqb path "-" || can_open E path.

(** Every file given to [--inj-database], in the order given. *)
Definition databases (argv : list argument) : list string :=
  flat_map (fun a => match a with arg_inj_database f => [f] | _ => [] end)
           argv.

(** The command lines that [parse_args] accepts: no [--contour] without a
    percentage, at most one positional, and that one readable, and every
    [--inj-database] one that [SQLiteType('r')] connects to.  In
    [accepted_after] a positional may have been seen already. *)
Definition accepted_after (E : Env) (seen : bool) (argv : list argument)
    : bool :=
  negb (existsb is_empty_contour argv)
  && (length (positionals argv) + (if seen then 1 else 0) <=? 1)%nat
  && forallb (readable E) (positionals argv)
  && forallb (can_connect E) (databases argv).

Definition accepted (E : Env) (argv : list argument) : bool :=
  negb (existsb is_empty_contour argv)
  && (length (positionals argv) <=? 1)%nat
  && forallb (readable E) (positionals argv)
  && forallb (can_connect E) (databases argv).

(** ** The order of [numpy.sort] as a rank *)

(** A rank in the lexicographic order on triples of integers: the class
    (negative infinity, negative, zero, positive, positive infinity, nan),
    then exponent and mantissa, reversed for negative numbers. *)
Definition rank (f : spec_float) : Z * Z * Z :=
  match f with
  | S754_nan => (3, 0, 0)
  | S754_infinity s => (if s then -2 else 2, 0, 0)
  | S754_zero _ => (0, 0, 0)
  | S754_finite s m e =>
      if s then (-1, - e, - Z.pos m) else (1, e, Z.pos m)
  end.

Definition rank_lt (a b : Z * Z * Z) : Prop :=
  let '(c1, e1, m1) := a in
  let '(c2, e2, m2) := b in
  c1 < c2 \/ (c1 = c2 /\ (e1 < e2 \/ (e1 = e2 /\ m1 < m2))).

Definition np_rank (x : float) : Z * Z * Z := rank (Prim2SF x).

(** Ascending in numpy's order. *)
Definition np_sorted (l : list float) : Prop :=
  StronglySorted (fun a b => np_lt b a = false) l.

(** ** A sample world

    A concrete environment on which the tool can be run: healpy's
    conversions between pixel count, resolution and pixel area, a table
    of sky map files, a table of injections.  It serves to evaluate
    [main] on concrete command lines. *)

Module Sample.
Local Open Scope float_scope.

Definition float_of_Z (z : Z) : float := of_uint63 (Uint63.of_Z z).

(** [healpy.npix2nside]: the pixel count must be [12 * nside ** 2]. *)
Definition npix2nside (npix : nat) : exn + Z :=
  let nside := Z.sqrt (Z.of_nat npix / 12) in
  if (12 * nside * nside =? Z.of_nat npix)%Z then inr nside
  else inl (ValueError "Wrong pixel number (it is not 12*nside**2)").

(** [healpy.nside2pixarea(nside, degrees=True)]: the sphere's [4 pi]
    steradians shared by [12 * nside ** 2] pixels, in square degrees. *)
Definition nside2pixarea (nside : Z) : exn + float :=
  if (nside =? 0)%Z then inl (LibraryError "ZeroDivisionError")
  else inr (np_rad2deg (np_rad2deg
              (4 * np_pi / float_of_Z (12 * nside * nside)))).

Definition amax (l : list float) : exn + float :=
  match l with
  | [] => inl (ValueError "zero-size array to reduction operation maximum")
  | x :: l' => inr (fold_left (fun a b => if a <? b then b else a) l' x)
  end.

(** The credible level of a pixel: the probability of all pixels that
    are at least as probable. *)
Definition credible_levels (p : list float) : exn + list float :=
  inr (map (fun x =>
              fold_left PrimFloat.add (List.filter (fun y => x <=? y) p) 0)
           p).

Definition gps_to_isot (t : pyval) : exn + string :=
  match t with
  | PyFloat _ | PyInt _ => inr "2015-09-14T09:50:45.500"
  | _ => inl (ValueError "Input values did not match the format class gps")
  end.

(** The latitude of a [SkyCoord] must lie between -90 and 90 degrees. *)
Definition check_coord (ra dec : float) : exn + unit :=
  if (-90 <=? dec) && (dec <=? 90) then inr tt
  else inl (ValueError "Latitude angle(s) must be within -90 deg <= angle <= 90 deg").

Definition to_str (v : pyval) : string :=
  match v with
  | PyNone => "None"
  | PyBool b => if b then "True" else "False"
  | PyInt z => pretty z
  | PyFloat x => format_g x
  | PyStr s => s
  end.

Record World : Type := {
  (** The sky maps on disk, by file name. *)
  files : gmap string (list float * gmap string pyval);
  (** The sky map waiting on the standard input, if any. *)
  stdin : option (list float * gmap string pyval);
  (** The database files on disk. *)
  sqlite_files : list string;
  (** The injections of a database file, by event. *)
  injections : string -> pyval -> list (float * float);
  usetex : bool
}.

(** Modelled from the spec: [ligo.skymap.io.fits.read_sky_map] is not in
    the tool's file; the tool is to "read one file", so the reader opens
    the file of the name it is given. *)
Definition read_sky_map (w : World) (name : string)
    : exn + (list float * gmap string pyval) :=
  match files w !! name with
  | Some m => inr m
  | None => inl (FileNotFoundError name)
  end.

Definition env (w : World) : Env :=
  {| can_open := fun path => bool_decide (is_Some (files w !! path));
     can_connect := fun file => existsb (String.eqb file) (sqlite_files w);
     fits_read_sky_map := read_sky_map w;
     hp_npix2nside := npix2nside;
     hp_nside2pixarea := nside2pixarea;
     Time_gps_utc_isot := gps_to_isot;
     ndarray_max := amax;
     find_greedy_credible_levels := credible_levels;
     text_usetex := usetex w;
     coastline_geometries := inr [[[-10; 50]; [-9; 51]; [-8; 52]]; [[0; 0]; [1; 1]]];
     execute_fetchall := fun db _ objid => inr (injections w db objid);
     SkyCoord_deg := check_coord;
     py_str := to_str |}.

(** A sky map of twelve pixels. *)
Definition pixels : list float :=
  [0.5; 0.25; 0.125; 0.0625; 0.03125; 0.015625; 0.0078125; 0.00390625;
   0.001953125; 0.0009765625; 0.00048828125; 0.00048828125].

Definition header : gmap string pyval :=
  {[ "gps_time" := PyFloat 1126259462.5;
     "nest" := PyBool false;
     "objid" := PyStr "G211117" ]}.

Definition world : World :=
  {| files := {[ "bayestar.fits" := (pixels, header);
                 "anonymous.fits" := (pixels, delete "objid" header);
                 "undated.fits" := (pixels, delete "gps_time" header);
                 "unordered.fits" := (pixels, delete "nest" header) ]};
     stdin := None;
     sqlite_files := ["inj.sqlite"; "two.sqlite"];
     injections := fun db objid =>
       match db, objid with
       | "inj.sqlite"%string, PyStr "G211117" => [(1.5, -0.5)]
       | "two.sqlite"%string, PyStr "G211117" => [(1.5, -0.5); (1, 0.25)]
       | _, _ => []
       end;
     usetex := false |}.

(** The area of one of the twelve pixels, in square degrees. *)
Definition pixel_area : float :=
  Eval vm_compute in
    match nside2pixarea 1 with inr a => a | inl _ => 0 end.

(** The locals that [draw_map] leaves for one of the files. *)
Definition percent_levels : list float :=
  Eval vm_compute in
    match credible_levels pixels with
    | inr levels => map (fun x => 100 * x) levels
    | inl _ => []
    end.

Definition locals (md : gmap string pyval) (cls : option (list float))
    : Locals :=
  {| skymap := pixels;
     metadata := md;
     deg2perpix := pixel_area;
     probperdeg2 := map (fun x => x / pixel_area) pixels;
     cls := cls |}.

(** The same files, with a sky map piped into the standard input. *)
Definition piped : World :=
  {| files := files world;
     stdin := Some (pixels, header);
     sqlite_files := sqlite_files world;
     injections := injections world;
     usetex := false |}.

End Sample.

(** * Properties *)

(** ** The built-ins on samples

    Values that Python and numpy give for the same arguments. *)

Example np_round_ties_to_even :
  map np_round [0.5; 1.5; 2.5; 50.5; 99.5]%float = [0; 2; 2; 50; 100]%float.
Proof. vm_compute. reflexivity. Qed.

Example astype_int_truncates :
  map astype_int [2.5; -2.5; 100; nan; infinity]%float =
  [2; -2; 100; int64_min; int64_min].
Proof. vm_compute. reflexivity. Qed.

Example format_g_samples :
  map format_g [50; 50.5; 99.5; 1048576; 999999.5; 0.0001220703125;
                0.000030517578125; 1e22; -2.5]%float =
  ["50"; "50.5"; "99.5"; "1.04858e+06"; "1e+06"; "0.00012207";
   "3.05176e-05"; "1e+22"; "-2.5"].
Proof. vm_compute. reflexivity. Qed.

Example searchsorted_samples :
  np_searchsorted (np_sort [3; nan; 1; 2; 1]%float) [1; 2.5; 10]%float =
  [0; 3; 4]%nat.
Proof. vm_compute. reflexivity. Qed.

(** ** numpy's order on doubles is a strict weak order *)

Module FloatOrder.

Lemma np_lt_rank (a b : float) :
  np_lt a b = true <-> rank_lt (np_rank a) (np_rank b).
Proof.
  unfold np_lt, is_nan, np_rank.
  rewrite FloatAxioms.ltb_spec, !FloatAxioms.eqb_spec.
  unfold SFltb, SFeqb.
  destruct (Prim2SF a) as [sa|sa| |sa ma ea], (Prim2SF b) as [sb|sb| |sb mb eb];
    simpl; try destruct sa; try destruct sb; simpl;
    rewrite ?Z.compare_refl, ?Pos.compare_cont_refl; simpl;
    try (split; [discriminate | intros; lia]);
    try (split; [intros _; lia | reflexivity]).
  all: change (PosDef.Pos.compare_cont Eq ma mb) with (Pos.compare ma mb);
    destruct (Z.compare_spec ea eb); simpl;
    try destruct (Pos.compare_spec ma mb); simpl;
    (split; [try discriminate; intros _; lia | try reflexivity; intros; lia]).
Qed.

Lemma np_lt_false_rank (a b : float) :
  np_lt a b = false <-> ~ rank_lt (np_rank a) (np_rank b).
Proof.
  rewrite <- np_lt_rank. destruct (np_lt a b); split; congruence.
Qed.

Ltac ranks :=
  repeat match goal with
  | H : np_lt _ _ = true |- _ => apply np_lt_rank in H
  | H : np_lt _ _ = false |- _ => apply np_lt_false_rank in H
  | |- np_lt _ _ = true => apply np_lt_rank
  | |- np_lt _ _ = false => apply np_lt_false_rank
  end;
  repeat match goal with
  | |- context [np_rank ?x] =>
      let c := fresh "c" in let e := fresh "e" in let m := fresh "m" in
      destruct (np_rank x) as [[c e] m]
  | H : context [np_rank ?x] |- _ =>
      let c := fresh "c" in let e := fresh "e" in let m := fresh "m" in
      destruct (np_rank x) as [[c e] m]
  end;
  unfold rank_lt in *; lia.

Lemma np_lt_trans a b c :
  np_lt a b = true -> np_lt b c = true -> np_lt a c = true.
Proof. intros; ranks. Qed.

Lemma np_lt_asym a b : np_lt a b = true -> np_lt b a = false.
Proof. intros; ranks. Qed.

(** [a <= b < v] gives [a < v]. *)
Lemma np_le_lt_trans a b v :
  np_lt b a = false -> np_lt b v = true -> np_lt a v = true.
Proof. intros; ranks. Qed.

(** [a <= b <= c] gives [a <= c]. *)
Lemma np_le_trans a b c :
  np_lt b a = false -> np_lt c b = false -> np_lt c a = false.
Proof. intros; ranks. Qed.

(** For a key that is a number, numpy's order is IEEE's [<]. *)
Lemma np_lt_number (x v : float) : is_nan v = false -> np_lt x v = (x <? v)%float.
Proof. intros H. unfold np_lt. rewrite H. simpl. apply orb_false_r. Qed.

End FloatOrder.

(** ** Sorting and searching *)

Module Sorting.
Import FloatOrder.

Lemma np_insert_perm x l : np_insert x l ≡ₚ x :: l.
Proof.
  induction l as [|y l IH]; simpl; [reflexivity|].
  destruct (np_lt x y); [reflexivity|].
  rewrite IH. apply Permutation_swap.
Qed.

Lemma np_sort_perm l : np_sort l ≡ₚ l.
Proof.
  induction l as [|x l IH]; simpl; [reflexivity|].
  rewrite np_insert_perm. now rewrite IH.
Qed.

Lemma np_insert_sorted x l : np_sorted l -> np_sorted (np_insert x l).
Proof.
  unfold np_sorted. induction 1 as [|y l Hl IH Hy]; simpl.
  - repeat constructor.
  - destruct (np_lt x y) eqn:Hxy.
    + constructor; [now constructor|].
      constructor; [now apply np_lt_asym|].
      eapply List.Forall_impl; [|exact Hy]. simpl. intros z Hz.
      eapply np_le_trans; [apply np_lt_asym; eassumption | exact Hz].
    + constructor; [exact IH|].
      rewrite np_insert_perm. now constructor.
Qed.

Lemma np_sort_sorted l : np_sorted (np_sort l).
Proof.
  induction l as [|x l IH]; simpl; [constructor|].
  now apply np_insert_sorted.
Qed.

Lemma count_if_perm {A} (f : A -> bool) (l l' : list A) :
  l ≡ₚ l' -> count_if f l = count_if f l'.
Proof. induction 1; simpl; lia. Qed.

Lemma count_if_none {A} (f : A -> bool) (l : list A) :
  List.Forall (fun x => f x = false) l -> count_if f l = 0%nat.
Proof. induction 1 as [|x l Hx _ IH]; simpl; [|rewrite Hx, IH]; reflexivity. Qed.

(** In a sorted array the entries below a key are exactly the first
    [count_if] ones. *)
Lemma sorted_below_prefix (v : float) (l : list float) :
  np_sorted l ->
  forall (i : nat) (x : float), l !! i = Some x ->
    np_lt x v = (i <? count_if (fun y => np_lt y v) l)%nat.
Proof.
  unfold np_sorted. induction 1 as [|y l Hl IH Hy]; intros i x Hi.
  - discriminate.
  - simpl. destruct (np_lt y v) eqn:Hyv.
    + destruct i as [|i]; simpl in Hi.
      * injection Hi as <-. now rewrite Hyv.
      * now rewrite (IH i x Hi).
    + assert (Hnone : List.Forall (fun z => np_lt z v = false) (y :: l)).
      { constructor; [exact Hyv|].
        eapply List.Forall_impl; [|exact Hy]. simpl. intros z Hz.
        destruct (np_lt z v) eqn:Hzv; [|reflexivity].
        rewrite (np_le_lt_trans _ _ _ Hz Hzv) in Hyv. discriminate. }
      rewrite (count_if_none _ l) by (now inversion Hnone).
      rewrite List.Forall_forall in Hnone. simpl.
      apply Hnone. apply list_elem_of_In. eapply list_elem_of_lookup_2, Hi.
Qed.

(** The binary search returns the boundary index, with fuel to spare. *)
Lemma bisect_left_boundary (a : list float) (v : float) (k : nat) :
  (forall (i : nat) (x : float), a !! i = Some x -> np_lt x v = (i <? k)%nat) ->
  forall (fuel lo hi : nat),
    (lo <= k <= hi)%nat -> (hi <= length a)%nat -> (hi - lo <= fuel)%nat ->
    bisect_left fuel a v lo hi = k.
Proof.
  intros Hk. induction fuel as [|fuel IH]; intros lo hi Hlo Hhi Hfuel;
    cbn [bisect_left].
  - lia.
  - destruct (Nat.ltb_spec lo hi) as [Hlt|Hge]; [|lia].
    assert (Hhalf : ((hi - lo) / 2 < hi - lo)%nat)
      by (apply Nat.div_lt; lia).
    destruct (lookup_lt_is_Some_2 a (lo + (hi - lo) / 2)) as [x Hx]; [lia|].
    rewrite Hx. rewrite (Hk _ _ Hx).
    destruct (Nat.ltb_spec (lo + (hi - lo) / 2) k).
    + apply IH; lia.
    + apply IH; [lia|lia|].
      assert ((hi - lo) / 2 < S fuel)%nat; [|lia].
      apply Nat.Div0.div_lt_upper_bound. lia.
Qed.

Theorem searchsorted_counts (l : list float) (v : float) :
  searchsorted1 (np_sort l) v = count_if (fun x => np_lt x v) l.
Proof.
  unfold searchsorted1.
  rewrite <- (count_if_perm _ _ _ (np_sort_perm l)).
  apply bisect_left_boundary; try lia.
  - apply sorted_below_prefix, np_sort_sorted.
  - split; [lia|]. generalize (np_sort l). intros l'.
    induction l' as [|y l' IH]; simpl; [lia|]. destruct (np_lt y v); lia.
Qed.

Corollary searchsorted_counts_below (l : list float) (v : float) :
  is_nan v = false ->
  searchsorted1 (np_sort l) v = count_if (fun x => (x <? v)%float) l.
Proof.
  intros Hv. rewrite searchsorted_counts.
  induction l as [|x l IH]; simpl; [reflexivity|].
  now rewrite IH, (np_lt_number x v Hv).
Qed.

End Sorting.

(** ** Running the monad *)

Module Run.

Lemma bind_inl {A B} (m : M A) (f : A -> M B) t e :
  m = (t, inl e) -> m ≫= f = (t, inl e).
Proof. now intros ->. Qed.

Lemma bind_inr {A B} (m : M A) (f : A -> M B) t a :
  m = (t, inr a) -> m ≫= f = (t ++ trace (f a), outcome (f a)).
Proof. intros ->. unfold mbind, M_bind. now destruct (f a). Qed.

Lemma bind_assoc {A B C} (m : M A) (f : A -> M B) (g : B -> M C) :
  (m ≫= f) ≫= g = m ≫= (fun a => f a ≫= g).
Proof.
  destruct m as [t [e|a]]; [reflexivity|].
  unfold mbind, M_bind. destruct (f a) as [t1 [e|b]]; [reflexivity|].
  destruct (g b) as [t2 r]. now rewrite app_assoc.
Qed.

Lemma bind_ret {A B} (a : A) (f : A -> M B) : mret a ≫= f = f a.
Proof. unfold mret, M_ret, mbind, M_bind. now destruct (f a). Qed.

Lemma bind_ext {A B} (m : M A) (f g : A -> M B) :
  (forall a, f a = g a) -> m ≫= f = m ≫= g.
Proof.
  intros H. destruct m as [t [e|a]]; [reflexivity|].
  unfold mbind, M_bind. now rewrite H.
Qed.

(** A bind returns only if both parts do. *)
Lemma bind_returns {A B} (m : M A) (f : A -> M B) t b :
  m ≫= f = (t, inr b) ->
  exists t1 a t2, m = (t1, inr a) /\ f a = (t2, inr b) /\ t = t1 ++ t2.
Proof.
  destruct m as [t1 [e|a]]; [discriminate|].
  unfold mbind, M_bind. destruct (f a) as [t2 r] eqn:Hf.
  intros [= <- ->]. now exists t1, a, t2.
Qed.

Lemma trace_bind {A B} (m : M A) (f : A -> M B) :
  trace (m ≫= f) =
  trace m ++ match outcome m with inr a => trace (f a) | inl _ => [] end.
Proof.
  destruct m as [t [e|a]]; simpl; [now rewrite app_nil_r|].
  unfold mbind, M_bind. now destruct (f a).
Qed.

Lemma outcome_bind {A B} (m : M A) (f : A -> M B) :
  outcome (m ≫= f) =
  match outcome m with inr a => outcome (f a) | inl e => inl e end.
Proof.
  destruct m as [t [e|a]]; simpl; [reflexivity|].
  unfold mbind, M_bind. now destruct (f a).
Qed.

Lemma outcome_bind_inr {A B} (m : M A) (f : A -> M B) a :
  outcome m = inr a -> outcome (m ≫= f) = outcome (f a).
Proof. intros H. now rewrite outcome_bind, H. Qed.

Lemma surjective_run {A} (m : M A) : m = (trace m, outcome m).
Proof. now destruct m. Qed.

(** Inversion of a run that returns, statement by statement. *)
Lemma extern_returns {A B} (r : exn + A) (f : A -> M B) t b :
  extern r ≫= f = (t, inr b) -> exists a, r = inr a /\ f a = (t, inr b).
Proof.
  intros H. apply bind_returns in H as (t1 & a & t2 & [= <- ->] & H & ->).
  now exists a.
Qed.

Lemma emit_returns {B} (c : call) (f : unit -> M B) t b :
  emit c ≫= f = (t, inr b) -> exists t', f tt = (t', inr b) /\ t = c :: t'.
Proof.
  intros H. apply bind_returns in H as (t1 & [] & t2 & [= <-] & H & ->).
  now exists t2.
Qed.

Lemma getitem_returns {B} d k (f : pyval -> M B) t b :
  getitem d k ≫= f = (t, inr b) -> exists v, d !! k = Some v /\ f v = (t, inr b).
Proof.
  unfold getitem. intros H. destruct (d !! k) as [v|]; [|discriminate].
  rewrite bind_ret in H. now exists v.
Qed.

(** Where a call in the trace of a run comes from. *)
Lemma in_trace_bind {A B} (m : M A) (f : A -> M B) c :
  In c (trace (m ≫= f)) ->
  In c (trace m) \/ exists a, outcome m = inr a /\ In c (trace (f a)).
Proof.
  rewrite trace_bind, in_app_iff. intros [H|H]; [now left|right].
  destruct (outcome m) as [e|a]; [destruct H|]. now exists a.
Qed.

Lemma in_trace_extern {A B} (r : exn + A) (f : A -> M B) c :
  In c (trace (extern r ≫= f)) -> exists a, r = inr a /\ In c (trace (f a)).
Proof. intros H. apply in_trace_bind in H as [[]|H]. exact H. Qed.

Lemma in_trace_emit {B} (c' : call) (f : unit -> M B) c :
  In c (trace (emit c' ≫= f)) -> c = c' \/ In c (trace (f tt)).
Proof.
  intros H. apply in_trace_bind in H as [[<-|[]]|([] & _ & H)]; [now left|now right].
Qed.

Lemma in_trace_getitem {B} d k (f : pyval -> M B) c :
  In c (trace (getitem d k ≫= f)) ->
  exists v, d !! k = Some v /\ In c (trace (f v)).
Proof.
  unfold getitem. destruct (d !! k) as [v|]; [|intros []].
  rewrite bind_ret. now exists v.
Qed.

(** Running a statement forwards. *)
Lemma extern_inr {A B} (a : A) (f : A -> M B) : extern (inr a) ≫= f = f a.
Proof. apply bind_ret. Qed.

Lemma extern_inl {A B} (e : exn) (f : A -> M B) :
  extern (inl e) ≫= f = ([], inl e).
Proof. reflexivity. Qed.

Lemma raise_bind {A B} (e : exn) (f : A -> M B) : raise e ≫= f = raise e.
Proof. reflexivity. Qed.

Lemma emit_bind {B} (c : call) (f : unit -> M B) :
  emit c ≫= f = (c :: trace (f tt), outcome (f tt)).
Proof. unfold emit, mbind, M_bind. now destruct (f tt). Qed.

Lemma getitem_Some d k v : d !! k = Some v -> getitem d k = mret v.
Proof. unfold getitem. now intros ->. Qed.

Lemma getitem_None d k : d !! k = None -> getitem d k = raise (KeyError k).
Proof. unfold getitem. now intros ->. Qed.

Lemma trace_extern {A B} (r : exn + A) (f : A -> M B) :
  trace (extern r ≫= f) = match r with inl _ => [] | inr a => trace (f a) end.
Proof. destruct r as [e|a]; [reflexivity|]. now rewrite trace_bind. Qed.

Lemma outcome_extern {A B} (r : exn + A) (f : A -> M B) :
  outcome (extern r ≫= f) =
  match r with inl e => inl e | inr a => outcome (f a) end.
Proof. destruct r as [e|a]; [reflexivity|]. now rewrite outcome_bind. Qed.

Lemma trace_emit {B} (c : call) (f : unit -> M B) :
  trace (emit c ≫= f) = c :: trace (f tt).
Proof. now rewrite trace_bind. Qed.

Lemma outcome_emit {B} (c : call) (f : unit -> M B) :
  outcome (emit c ≫= f) = outcome (f tt).
Proof. now rewrite outcome_bind. Qed.

End Run.

(** ** The parser *)

Module Parser.
Import Run.

Lemma FileType_rb_returns E p t f :
  FileType_rb E p = (t, inr f) ->
  f = file_of p /\
  t = if String.eqb p "-" then [] else [builtin_open p "rb"].
Proof.
  unfold FileType_rb, file_of. destruct (String.eqb p "-").
  - now intros [= <- <-].
  - destruct (can_open E p); [|discriminate]. now intros [= <- <-].
Qed.

Lemma take_actions_returns E argv : forall ns t ns',
  take_actions E ns argv = (t, inr ns') ->
  p_annotate ns' = p_annotate ns || given_annotate argv /\
  p_contour ns' = fold_left last_contour argv (p_contour ns) /\
  p_colorbar ns' = p_colorbar ns || given_colorbar argv /\
  p_radec ns' = p_radec ns ++ given_radec argv /\
  p_inj_database ns' = fold_left last_inj_database argv (p_inj_database ns) /\
  p_geo ns' = p_geo ns || given_geo argv /\
  match p_input ns with
  | Some f => p_input ns' = Some f /\ t = []
  | None =>
      p_input ns' = file_of <$> given_input argv /\
      t = match given_input argv with
          | Some p => if String.eqb p "-" then [] else [builtin_open p "rb"]
          | None => []
          end
  end.
Proof.
  induction argv as [|a argv IH]; intros ns t ns' H.
  - injection H as <- <-. rewrite !orb_false_r, app_nil_r.
    repeat split. now destruct (p_input ns).
  - cbn [take_actions] in H.
    apply bind_returns in H as (t1 & ns1 & t2 & Ha & Hrest & ->).
    apply IH in Hrest as (Han & Hco & Hcb & Hrd & Hdb & Hge & Hin).
    destruct ns as [an co cb rd db ge inp].
    destruct a as [|[|p ps]| |ra dec|file| |path];
      try (cbn [take_action] in Ha; unfold SQLiteType_r in Ha;
           destruct (can_connect E file); [rewrite bind_ret in Ha|]);
      cbn in Ha;
      try discriminate; try (injection Ha as <- <-; cbn in *;
        rewrite ?orb_true_r, ?orb_true_l, <- ?app_assoc in *;
        repeat split; assumption).
    destruct inp as [f|]; [discriminate|].
    apply bind_returns in Ha as (t3 & f & t4 & Hf & Hret & ->).
    injection Hret as <- <-.
    apply FileType_rb_returns in Hf as [-> ->].
    cbn in *. destruct Hin as [-> ->].
    repeat split; try assumption; now rewrite ?app_nil_r.
Qed.

Theorem parse_args_returns E argv t opts :
  parse_args E argv = (t, inr opts) ->
  opts = namespace_of argv /\ t = opens argv.
Proof.
  unfold parse_args. intros H.
  apply bind_returns in H as (t1 & ns & t2 & Hns & H & ->).
  apply bind_returns in H as (t3 & f & t4 & Hf & H & ->).
  injection H as <- <-.
  apply take_actions_returns in Hns as (Han & Hco & Hcb & Hrd & Hdb & Hge & Hin).
  cbn in *. destruct Hin as [Hin ->].
  unfold namespace_of, input_file, opens, given_contour, given_inj_database.
  rewrite Han, Hco, Hcb, Hrd, Hdb, Hge. rewrite Hin in Hf.
  destruct (given_input argv) as [p|]; cbn in Hf.
  - injection Hf as <- <-. now rewrite !app_nil_r.
  - injection Hf as <- <-. split; reflexivity.
Qed.

End Parser.


(** ** The parts of [main] *)

Module Stages.
Import Run Parser.
Local Open Scope float_scope.

(** One step of the inversion of a run that returns. *)
Ltac returns_step H :=
  lazymatch type of H with
  | extern _ ≫= _ = (_, inr _) =>
      let a := fresh "a" in let Ha := fresh "Hcall" in
      apply extern_returns in H as (a & Ha & H)
  | emit _ ≫= _ = (_, inr _) =>
      let t := fresh "t" in apply emit_returns in H as (t & H & ->)
  | getitem _ _ ≫= _ = (_, inr _) =>
      let v := fresh "v" in let Hv := fresh "Hkey" in
      apply getitem_returns in H as (v & Hv & H)
  | mret _ ≫= _ = _ => rewrite bind_ret in H
  | (_ ≫= _) ≫= _ = _ => rewrite bind_assoc in H
  | (if ?b then _ else _) ≫= _ = _ => destruct b eqn:?
  | (let '(_, _) := ?p in _) = _ => destruct p
  | (let '(_, _) := ?p in _) ≫= _ = _ => destruct p
  end.

(** One step of tracing a call back to the statement that issued it. *)
Ltac in_trace_step H :=
  lazymatch type of H with
  | In _ (trace (extern _ ≫= _)) =>
      let a := fresh "a" in let Ha := fresh "Hcall" in
      apply in_trace_extern in H as (a & Ha & H)
  | In _ (trace (emit _ ≫= _)) =>
      apply in_trace_emit in H as [H|H]; [try discriminate H|]
  | In _ (trace (getitem _ _ ≫= _)) =>
      let v := fresh "v" in let Hv := fresh "Hkey" in
      apply in_trace_getitem in H as (v & Hv & H)
  | In _ (trace (mret _ ≫= _)) => rewrite bind_ret in H
  | In _ (trace ((_ ≫= _) ≫= _)) => rewrite bind_assoc in H
  | In _ (trace ((if ?b then _ else _) ≫= _)) => destruct b eqn:?
  | In _ (trace (let '(_, _) := ?p in _)) => destruct p
  | In _ (trace (mret _)) => destruct H
  | In _ (trace (emit _)) => destruct H as [H|[]]; try discriminate H
  end.

(** Running forwards through statements whose results are known. *)
Ltac forward :=
  repeat (rewrite ?bind_assoc, ?extern_inr, ?extern_inl, ?bind_ret,
            ?raise_bind, ?emit_bind;
          cbn beta iota;
          progress (repeat match goal with
          | H : ?r = inr _ |- context [extern ?r] => rewrite H
          | H : ?r = inl _ |- context [extern ?r] => rewrite H
          | H : ?d !! ?k = Some _ |- context [getitem ?d ?k] =>
              rewrite (getitem_Some _ _ _ H)
          | H : ?d !! ?k = None |- context [getitem ?d ?k] =>
              rewrite (getitem_None _ _ H)
          end)).

Ltac rewrite_conditions :=
  repeat match goal with
  | Hb : ?b = _ |- context [if ?b then _ else _] => rewrite Hb
  | Hb : ?b = _ |- context [match ?b with inl _ => _ | inr _ => _ end] =>
      rewrite Hb
  end.

Lemma draw_map_returns E opts t st :
  draw_map E opts = (t, inr st) ->
  exists nside gps_time obstime vmax nest,
    fits_read_sky_map E (file_name (input opts)) = inr (skymap st, metadata st) /\
    hp_npix2nside E (length (skymap st)) = inr nside /\
    hp_nside2pixarea E nside = inr (deg2perpix st) /\
    probperdeg2 st = map (fun x => x / deg2perpix st) (skymap st) /\
    metadata st !! "gps_time" = Some gps_time /\
    Time_gps_utc_isot E gps_time = inr obstime /\
    ndarray_max E (probperdeg2 st) = inr vmax /\
    metadata st !! "nest" = Some nest /\
    (if truthy (contour opts)
     then exists levels, find_greedy_credible_levels E (skymap st) = inr levels /\
            cls st = Some (map (fun x => 100 * x) levels)
     else cls st = None) /\
    t = map_calls E opts st obstime vmax nest.
Proof.
  unfold draw_map. intros H.
  repeat returns_step H.
  all: injection H as <- <-; cbn; unfold map_calls; cbn.
  all: rewrite_conditions.
  all: repeat match goal with
       | Hk : ?g !! "nest" = Some ?v, Hk' : ?g !! "nest" = Some ?v' |- _ =>
           assert (v' = v) as -> by congruence; clear Hk'
       end.
  all: do 5 eexists; repeat split; try eassumption; try reflexivity; eauto.
Qed.

(** Every call of [draw_map], also of one that fails, is a drawing call;
    the axes and the image are the ones the source shows. *)
Lemma draw_map_calls E opts c :
  In c (trace (draw_map E opts)) ->
  stage_of c = 1%nat /\
  (forall proj obstime, c = plt_axes proj obstime ->
     proj = if geo opts then "geo degrees mollweide"
            else "astro hours mollweide") /\
  (forall d frame nested vmin vmax, c = ax_imshow_hpx d frame nested vmin vmax ->
     exists skymap md nside area,
       fits_read_sky_map E (file_name (input opts)) = inr (skymap, md) /\
       hp_npix2nside E (length skymap) = inr nside /\
       hp_nside2pixarea E nside = inr area /\
       d = map (fun x => x / area) skymap) /\
  (forall name nest, c = fits_read name nest ->
     name = file_name (input opts)).
Proof.
  unfold draw_map. intros H.
  repeat (in_trace_step H;
          try (subst c; repeat split; [congruence..| |congruence];
               intros ? ? ? ? ? [= <- _ _ _ _]; eauto 10)).
Qed.

Lemma collect_radecs_trace E opts md : trace (collect_radecs E opts md) = [].
Proof.
  unfold collect_radecs. destruct (inj_database opts) as [db|]; [|reflexivity].
  unfold getitem. destruct (md !! "objid") as [objid|]; [|reflexivity].
  rewrite bind_ret, trace_bind. cbn.
  destruct (execute_fetchall E db query objid) as [e|rows]; [reflexivity|].
  destruct rows as [|[ra dec] [|row rows]]; reflexivity.
Qed.

Lemma collect_radecs_returns E opts md t radecs :
  collect_radecs E opts md = (t, inr radecs) ->
  t = [] /\
  match inj_database opts with
  | None => radecs = radec opts
  | Some db =>
      exists objid lon lat,
        md !! "objid" = Some objid /\
        execute_fetchall E db query objid = inr [(lon, lat)] /\
        radecs = radec opts ++ [(np_rad2deg lon, np_rad2deg lat)]
  end.
Proof.
  intros H. split.
  - rewrite <- (collect_radecs_trace E opts md), H. reflexivity.
  - unfold collect_radecs in H. destruct (inj_database opts) as [db|].
    + repeat returns_step H.
      destruct a as [|[lon lat] [|row rows]]; try discriminate H.
      injection H as _ <-. eauto 10.
    + now injection H as _ <-.
Qed.

Lemma add_markers_trace E radecs :
  exists n, trace (add_markers E radecs) = map marker_call (take n radecs).
Proof.
  unfold add_markers. induction radecs as [|[ra dec] radecs [n IH]].
  - now exists 0%nat.
  - cbn [for_each]. rewrite bind_assoc, trace_extern.
    destruct (SkyCoord_deg E ra dec) as [e|[]].
    + now exists 0%nat.
    + exists (S n). rewrite trace_emit. cbn [take map]. now rewrite IH.
Qed.

Lemma add_markers_returns E radecs t :
  add_markers E radecs = (t, inr tt) ->
  t = map marker_call radecs /\
  List.Forall (fun rd => SkyCoord_deg E rd.1 rd.2 = inr tt) radecs.
Proof.
  unfold add_markers. revert t.
  induction radecs as [|[ra dec] radecs IH]; intros t H.
  - injection H as <-. split; constructor.
  - cbn [for_each] in H. repeat returns_step H.
    destruct a. apply IH in H as [-> Hall]. split; [reflexivity|].
    constructor; assumption.
Qed.

Lemma mark_returns E opts st t :
  mark E opts st = (t, inr tt) ->
  exists radecs,
    collect_radecs E opts (metadata st) = ([], inr radecs) /\
    List.Forall (fun rd => SkyCoord_deg E rd.1 rd.2 = inr tt) radecs /\
    t = map marker_call radecs ++ [plot_outline_text].
Proof.
  unfold mark. intros H.
  apply bind_returns in H as (t1 & radecs & t2 & Hc & H & ->).
  destruct (collect_radecs_returns _ _ _ _ _ Hc) as [-> _].
  apply bind_returns in H as (t3 & [] & t4 & Hm & H & ->).
  apply add_markers_returns in Hm as [-> Hall].
  injection H as <-. now exists radecs.
Qed.

Lemma markers_marker_calls (l : list (float * float)) :
  markers (map marker_call l) = map marker_call l.
Proof. induction l as [|rd l IH]; [reflexivity|]. cbn. now f_equal. Qed.

Lemma markers_app (t1 t2 : list call) :
  markers (t1 ++ t2) = markers t1 ++ markers t2.
Proof. apply List.filter_app. Qed.

Lemma markers_other_stage (t : list call) (n : nat) :
  n <> 2%nat -> (forall c, In c t -> stage_of c = n) -> markers t = [].
Proof.
  intros Hn. induction t as [|c t IH]; intros H; [reflexivity|].
  cbn. destruct (is_marker c) eqn:Hc.
  - destruct c; try discriminate Hc. specialize (H _ (or_introl eq_refl)).
    cbn in H. congruence.
  - apply IH. intros c' Hc'. apply H. now right.
Qed.

Lemma mark_calls E opts st c :
  In c (trace (mark E opts st)) -> stage_of c = 2%nat.
Proof.
  unfold mark. intros H. apply in_trace_bind in H as [H|(radecs & _ & H)].
  - now rewrite collect_radecs_trace in H.
  - apply in_trace_bind in H as [H|([] & _ & [<-|[]])]; [|reflexivity].
    destruct (add_markers_trace E radecs) as [n Hn]. rewrite Hn in H.
    apply in_map_iff in H as (rd & <- & _). reflexivity.
Qed.

(** The markers of [mark], also of one that fails: one per coordinate
    pair, in order, up to the first pair that is refused. *)
Lemma mark_markers E opts st :
  inj_database opts = None ->
  exists n,
    markers (trace (mark E opts st)) = map marker_call (take n (radec opts)).
Proof.
  intros Hdb. unfold mark, collect_radecs. rewrite Hdb, bind_ret.
  rewrite trace_bind, markers_app.
  destruct (add_markers_trace E (radec opts)) as [n ->]. exists n.
  rewrite markers_marker_calls.
  destruct (outcome (add_markers E (radec opts))); now rewrite app_nil_r.
Qed.

(** [annotate_plot] cannot fail once [cls] is bound where it is read. *)
Lemma annotate_plot_run E opts st :
  (truthy (contour opts) = true -> is_Some (cls st)) ->
  annotate_plot E opts st =
  (if annotate opts then
     [ax_text 1 1
        (join_lines (event_line E (metadata st) ++ contour_area_lines opts st))
        "right"]
   else [], inr tt).
Proof.
  intros Hcls. unfold annotate_plot, event_line, contour_area_lines, getitem.
  destruct (annotate opts); [|reflexivity].
  destruct (truthy (contour opts)).
  - destruct Hcls as [c ->]; [reflexivity|].
    destruct (metadata st !! "objid"); reflexivity.
  - destruct (metadata st !! "objid"); cbn; now rewrite ?app_nil_r.
Qed.

Lemma annotate_plot_calls E opts st c :
  In c (trace (annotate_plot E opts st)) -> stage_of c = 3%nat.
Proof.
  unfold annotate_plot, getitem. destruct (annotate opts); [|intros []].
  destruct (metadata st !! "objid"), (truthy (contour opts)), (cls st);
    cbn; intros [<-|[]] || intros []; reflexivity.
Qed.

Lemma draw_map_cls E opts t st :
  draw_map E opts = (t, inr st) ->
  truthy (contour opts) = true -> is_Some (cls st).
Proof.
  intros H Ht. apply draw_map_returns in H
    as (? & ? & ? & ? & ? & _ & _ & _ & _ & _ & _ & _ & _ & Hcls & _).
  rewrite Ht in Hcls. destruct Hcls as (levels & _ & ->). eauto.
Qed.

(** [main] from the two places where the claims take it up. *)
Lemma main_from_markers E argv :
  main E argv =
  before_markers E argv ≫= fun '(opts, st) =>
    mark E opts st ;; annotate_plot E opts st ;; emit opts_output.
Proof.
  unfold main, before_markers, run. rewrite bind_assoc.
  apply bind_ext. intros opts. rewrite bind_assoc.
  apply bind_ext. intros st. now rewrite bind_ret.
Qed.

Lemma main_from_annotation E argv :
  main E argv =
  before_annotation E argv ≫= fun '(opts, st) =>
    annotate_plot E opts st ;; emit opts_output.
Proof.
  rewrite main_from_markers. unfold before_annotation. rewrite bind_assoc.
  apply bind_ext. intros [opts st]. rewrite bind_assoc.
  apply bind_ext. intros []. now rewrite bind_ret.
Qed.

Lemma before_markers_returns E argv t opts st :
  before_markers E argv = (t, inr (opts, st)) ->
  opts = namespace_of argv /\
  exists t1, draw_map E opts = (t1, inr st) /\ t = opens argv ++ t1.
Proof.
  unfold before_markers. intros H.
  apply bind_returns in H as (t0 & opts' & t' & Hp & H & ->).
  apply bind_returns in H as (t1 & st' & t2 & Hd & H & ->).
  injection H as <- <- <-.
  apply parse_args_returns in Hp as [-> ->].
  split; [reflexivity|]. exists t1. now rewrite app_nil_r.
Qed.

Lemma before_annotation_returns E argv t opts st :
  before_annotation E argv = (t, inr (opts, st)) ->
  exists t1 t2,
    before_markers E argv = (t1, inr (opts, st)) /\
    mark E opts st = (t2, inr tt) /\ t = t1 ++ t2.
Proof.
  unfold before_annotation. intros H.
  apply bind_returns in H as (t1 & [opts' st'] & t' & Hb & H & ->).
  apply bind_returns in H as (t2 & [] & t3 & Hm & H & ->).
  injection H as <- <- <-. exists t1, t2. now rewrite app_nil_r.
Qed.

(** A run of [main] that returns has gone through every part. *)
Lemma main_returns E argv t :
  main E argv = (t, inr tt) ->
  exists t1 st radecs,
    before_markers E argv = (t1, inr (namespace_of argv, st)) /\
    collect_radecs E (namespace_of argv) (metadata st) = ([], inr radecs) /\
    List.Forall (fun rd => SkyCoord_deg E rd.1 rd.2 = inr tt) radecs /\
    t = t1 ++ map marker_call radecs ++ [plot_outline_text]
        ++ trace (annotate_plot E (namespace_of argv) st) ++ [opts_output].
Proof.
  rewrite main_from_markers. intros H.
  apply bind_returns in H as (t1 & [opts st] & t' & Hb & H & ->).
  destruct (before_markers_returns _ _ _ _ _ Hb) as [-> _].
  apply bind_returns in H as (t2 & [] & t3 & Hm & H & ->).
  apply mark_returns in Hm as (radecs & Hc & Hall & ->).
  apply bind_returns in H as (t4 & [] & t5 & Ha & H & ->).
  injection H as <-. exists t1, st, radecs.
  rewrite Ha. cbn [trace fst]. rewrite <- !app_assoc. auto.
Qed.

(** Every call of [main], also of a run that fails, comes from the parser
    or from one of the parts, each entered only after the previous one
    has returned. *)
Lemma main_calls E argv c :
  In c (trace (main E argv)) ->
  In c (trace (parse_args E argv)) \/
  (outcome (parse_args E argv) = inr (namespace_of argv) /\
   (In c (trace (draw_map E (namespace_of argv))) \/
    exists t st, draw_map E (namespace_of argv) = (t, inr st) /\
      (In c (trace (mark E (namespace_of argv) st)) \/
       (outcome (mark E (namespace_of argv) st) = inr tt /\
        (In c (trace (annotate_plot E (namespace_of argv) st)) \/
         (outcome (annotate_plot E (namespace_of argv) st) = inr tt /\
          c = opts_output)))))).
Proof.
  unfold main. intros H. apply in_trace_bind in H as [H|(opts & Hp & H)]; [now left|].
  right.
  assert (opts = namespace_of argv) as ->.
  { eapply parse_args_returns. rewrite (surjective_run (parse_args E argv)), Hp.
    reflexivity. }
  split; [exact Hp|].
  unfold run in H. apply in_trace_bind in H as [H|(st & Hd & H)]; [now left|].
  right. exists (trace (draw_map E (namespace_of argv))), st.
  split; [rewrite <- Hd; apply surjective_run|].
  apply in_trace_bind in H as [H|([] & Hm & H)]; [now left|].
  right. split; [exact Hm|].
  apply in_trace_bind in H as [H|([] & Ha & [<-|[]])]; [now left|].
  right. auto.
Qed.

Lemma parse_args_calls E argv c :
  In c (trace (parse_args E argv)) -> stage_of c = 0%nat.
Proof.
  unfold parse_args. intros H.
  assert (Hta : forall argv ns, In c (trace (take_actions E ns argv)) ->
                                stage_of c = 0%nat).
  { clear. induction argv as [|a argv IH]; intros ns; cbn [take_actions].
    - intros [].
    - intros H. apply in_trace_bind in H as [H|(ns' & _ & H)]; [|eapply IH, H].
      destruct ns as [an co cb rd db ge inp].
      destruct a as [|[|p ps]| |ra dec|file| |path];
        try (unfold take_action, SQLiteType_r in H;
             destruct (can_connect E file));
        cbn in H; try tauto.
      destruct inp; [destruct H|].
      unfold FileType_rb in H. destruct (String.eqb path "-"); [destruct H|].
      destruct (can_open E path); [|destruct H].
      cbn in H. destruct H as [<-|[]]. reflexivity. }
  apply in_trace_bind in H as [H|(ns & _ & H)]; [eapply Hta, H|].
  destruct (p_input ns); cbn in H; tauto.
Qed.

(** The trace of [main], part by part. *)
Lemma main_trace E argv :
  trace (main E argv) =
  trace (parse_args E argv) ++
  match outcome (parse_args E argv) with
  | inl _ => []
  | inr opts =>
      trace (draw_map E opts) ++
      match outcome (draw_map E opts) with
      | inl _ => []
      | inr st =>
          trace (mark E opts st) ++
          match outcome (mark E opts st) with
          | inl _ => []
          | inr _ =>
              trace (annotate_plot E opts st) ++
              match outcome (annotate_plot E opts st) with
              | inl _ => []
              | inr _ => [opts_output]
              end
          end
      end
  end.
Proof.
  unfold main, run. rewrite trace_bind. f_equal.
  destruct (outcome (parse_args E argv)) as [e|opts]; [reflexivity|].
  rewrite trace_bind. f_equal.
  destruct (outcome (draw_map E opts)) as [e|st]; [reflexivity|].
  rewrite trace_bind. f_equal.
  destruct (outcome (mark E opts st)) as [e|[]]; [reflexivity|].
  rewrite trace_bind. reflexivity.
Qed.

Lemma parse_args_outcome E argv opts :
  outcome (parse_args E argv) = inr opts -> opts = namespace_of argv.
Proof.
  intros H. eapply parse_args_returns.
  rewrite (surjective_run (parse_args E argv)), H. reflexivity.
Qed.

(** The figure is written only by a run that returns. *)
Lemma output_only_on_return E argv :
  In opts_output (trace (main E argv)) -> outcome (main E argv) = inr tt.
Proof.
  intros H.
  apply main_calls in H
    as [H|(Hp & [H|(t & st & Hd & [H|(Hm & [H|(Ha & _)])])])].
  - apply parse_args_calls in H. discriminate.
  - apply draw_map_calls in H as [H _]. discriminate.
  - apply mark_calls in H. discriminate.
  - apply annotate_plot_calls in H. discriminate.
  - unfold main, run. rewrite (outcome_bind_inr _ _ _ Hp).
    rewrite (outcome_bind_inr _ _ st) by now rewrite Hd.
    rewrite (outcome_bind_inr _ _ _ Hm), (outcome_bind_inr _ _ _ Ha).
    reflexivity.
Qed.

(** Past the markers nothing can fail: the run returns, with at most the
    annotation added to what is drawn. *)
Lemma main_from_annotation_returns E argv t opts st :
  before_annotation E argv = (t, inr (opts, st)) ->
  main E argv =
  (t ++ (if annotate opts then
           [ax_text 1 1
              (join_lines (event_line E (metadata st) ++
                           contour_area_lines opts st)) "right"]
         else []) ++ [opts_output],
   inr tt) /\
  exists radecs nside gps_time obstime vmax nest,
    t = opens argv ++ map_calls E opts st obstime vmax nest ++
        map marker_call radecs ++ [plot_outline_text] /\
    opts = namespace_of argv /\
    hp_npix2nside E (length (skymap st)) = inr nside /\
    hp_nside2pixarea E nside = inr (deg2perpix st) /\
    metadata st !! "gps_time" = Some gps_time /\
    metadata st !! "nest" = Some nest /\
    (if truthy (contour opts)
     then exists levels,
            find_greedy_credible_levels E (skymap st) = inr levels /\
            cls st = Some (map (fun x => 100 * x) levels)
     else cls st = None).
Proof.
  intros Hb.
  destruct (before_annotation_returns _ _ _ _ _ Hb) as (t1 & t2 & Hm & Hk & ->).
  destruct (before_markers_returns _ _ _ _ _ Hm) as (Hopts & t3 & Hd & ->).
  split.
  - rewrite main_from_annotation, (bind_inr _ _ _ _ Hb).
    rewrite (annotate_plot_run E opts st (draw_map_cls _ _ _ _ Hd)).
    destruct (annotate opts); reflexivity.
  - apply mark_returns in Hk as (radecs & _ & _ & ->).
    apply draw_map_returns in Hd
      as (nside & gps & obstime & vmax & nest & _ & Hn & Ha & _ & Hg & _ & _
          & Hnest & Hcls & ->).
    exists radecs, nside, gps, obstime, vmax, nest.
    rewrite <- !app_assoc. auto 10.
Qed.

(** A run that returns has made the calls of a [draw_map] that returns. *)
Lemma main_returns_map_calls E argv :
  outcome (main E argv) = inr tt ->
  exists st nside gps_time obstime vmax nest,
    fits_read_sky_map E (file_name (input_file argv)) =
      inr (skymap st, metadata st) /\
    hp_npix2nside E (length (skymap st)) = inr nside /\
    hp_nside2pixarea E nside = inr (deg2perpix st) /\
    probperdeg2 st = map (fun x => x / deg2perpix st) (skymap st) /\
    metadata st !! "gps_time" = Some gps_time /\
    metadata st !! "nest" = Some nest /\
    forall c, In c (map_calls E (namespace_of argv) st obstime vmax nest) ->
              In c (trace (main E argv)).
Proof.
  intros Hret.
  destruct (main_returns E argv (trace (main E argv)))
    as (t1 & st & radecs & Hb & _ & _ & Ht).
  { rewrite <- Hret. apply surjective_run. }
  apply before_markers_returns in Hb as (_ & t2 & Hd & ->).
  apply draw_map_returns in Hd
    as (nside & gps & obstime & vmax & nest & Hr & Hn & Ha & Hp & Hg & _ & _
        & Hnest & _ & ->).
  exists st, nside, gps, obstime, vmax, nest.
  repeat split; try assumption.
  intros c Hc. rewrite Ht, !in_app_iff. auto.
Qed.

Lemma label_texts_app t1 t2 :
  label_texts (t1 ++ t2) = label_texts t1 ++ label_texts t2.
Proof. apply flat_map_app. Qed.

Lemma annotation_texts_app t1 t2 :
  annotation_texts (t1 ++ t2) = annotation_texts t1 ++ annotation_texts t2.
Proof. apply flat_map_app. Qed.

Lemma label_texts_opens argv : label_texts (opens argv) = [].
Proof.
  unfold opens, file_of. destruct (given_input argv) as [p|]; [|reflexivity].
  destruct (String.eqb p "-"); reflexivity.
Qed.

Lemma annotation_texts_opens argv : annotation_texts (opens argv) = [].
Proof.
  unfold opens, file_of. destruct (given_input argv) as [p|]; [|reflexivity].
  destruct (String.eqb p "-"); reflexivity.
Qed.

Lemma label_texts_markers l : label_texts (map marker_call l) = [].
Proof. induction l; [reflexivity|assumption]. Qed.

Lemma annotation_texts_markers l : annotation_texts (map marker_call l) = [].
Proof. induction l; [reflexivity|assumption]. Qed.

Lemma label_texts_map_calls E opts st obstime vmax nest :
  label_texts (map_calls E opts st obstime vmax nest) =
  match cls st with
  | Some _ =>
      map (percent_format (if text_usetex E then "%g\%%" else "%g%%"))
          (default [] (contour opts))
  | None => []
  end.
Proof.
  unfold map_calls.
  destruct (colorbar opts), (cls st), (geo opts);
    try destruct (coastline_geometries E); cbn; now rewrite ?app_nil_r.
Qed.

Lemma annotation_texts_map_calls E opts st obstime vmax nest :
  annotation_texts (map_calls E opts st obstime vmax nest) = [].
Proof.
  unfold map_calls.
  destruct (colorbar opts), (cls st), (geo opts);
    try destruct (coastline_geometries E); reflexivity.
Qed.

(** The area lines in the words of the specification. *)
Lemma area_lines_spec (ps cls : list float) (pixarea : float) :
  List.Forall (fun p => is_nan p = false) ps ->
  area_lines ps cls pixarea = map (area_line cls pixarea) ps.
Proof.
  unfold area_lines, np_searchsorted.
  induction 1 as [|p ps Hp _ IH]; [reflexivity|].
  cbn [map zip zip_with]. f_equal; [|exact IH].
  unfold area_line, pixels_below.
  now rewrite (Sorting.searchsorted_counts_below cls p Hp).
Qed.

(** The area lines show the rounded percentages, whatever the areas. *)
Lemma area_lines_percents (ps cls : list float) (pixarea : float) :
  exists areas,
    length areas = length ps /\
    area_lines ps cls pixarea =
    zip_with (fun p a => annotated_percent p +:+ "% area: " +:+
                         format_d a +:+ " deg²") ps areas.
Proof.
  unfold area_lines, np_searchsorted.
  exists (map (fun p => astype_int (np_round
                 (float_of_nat (searchsorted1 (np_sort cls) p) * pixarea))) ps).
  split; [apply length_map|].
  induction ps as [|p ps IH]; [reflexivity|].
  cbn [map zip zip_with]. f_equal. exact IH.
Qed.

End Stages.

(** * The claims *)

Section Claims.
Import Run Parser Stages Sample.
Local Open Scope float_scope.

(** C1.  The array given to [imshow_hpx] is the sky map divided, entry by
    entry, by the pixel area in square degrees that healpy gives for the
    resolution of a map of that length: it is so for every such call of
    any run, and a run that returns has made the call. *)
Theorem C1_density_is_skymap_over_pixel_area (E : Env)
    (argv : list argument) :
  (forall d frame nested vmin vmax,
     In (ax_imshow_hpx d frame nested vmin vmax) (trace (main E argv)) ->
     exists skymap md nside area,
       fits_read_sky_map E (file_name (input_file argv)) = inr (skymap, md) /\
       hp_npix2nside E (length skymap) = inr nside /\
       hp_nside2pixarea E nside = inr area /\
       d = map (fun x => x / area) skymap) /\
  (outcome (main E argv) = inr tt ->
   exists skymap md nside area nested vmax,
     fits_read_sky_map E (file_name (input_file argv)) = inr (skymap, md) /\
     hp_npix2nside E (length skymap) = inr nside /\
     hp_nside2pixarea E nside = inr area /\
     In (ax_imshow_hpx (map (fun x => x / area) skymap) "ICRS" nested 0 vmax)
        (trace (main E argv))).
Proof.
  split.
  - intros d frame nested vmin vmax H.
    apply main_calls in H
      as [H|(Hp & [H|(t & st & Hd & [H|(Hm & [H|(Ha & H)])])])].
    + apply parse_args_calls in H. discriminate.
    + apply draw_map_calls in H as (_ & _ & H & _). eapply H. reflexivity.
    + apply mark_calls in H. discriminate.
    + apply annotate_plot_calls in H. discriminate.
    + discriminate.
  - intros Hret.
    destruct (main_returns_map_calls E argv Hret)
      as (st & nside & gps & obstime & vmax & nest & Hr & Hn & Ha & Hp & _ & _
          & Hin).
    exists (skymap st), (metadata st), nside, (deg2perpix st), nest, vmax.
    repeat split; try assumption.
    apply Hin. unfold map_calls. rewrite Hp. cbn. tauto.
Qed.

Lemma C1_witness :
  exists skymap md nside area,
    fits_read_sky_map (env world)
      (file_name (input_file [arg_input "bayestar.fits"])) = inr (skymap, md) /\
    hp_npix2nside (env world) (length skymap) = inr nside /\
    hp_nside2pixarea (env world) nside = inr area /\
    map (fun x => x / pixel_area) pixels = map (fun x => x / area) skymap.
Proof.
  apply (proj1 (C1_density_is_skymap_over_pixel_area (env world)
                  [arg_input "bayestar.fits"])
           (map (fun x => x / pixel_area) pixels)
           "ICRS" (PyBool false) 0
           match amax (map (fun x => x / pixel_area) pixels) with
           | inr vmax => vmax
           | inl _ => 0
           end).
  vm_compute. do 4 right. left. reflexivity.
Defined.

(** C2, as stated, fails: for [--contour 50.5] the label reads ["50.5%"],
    the annotation ["50% area: ..."]. *)
Lemma C2_counterexample :
  ~ labels_agree_with_annotation (env world)
      [arg_contour [50.5]; arg_annotate; arg_input "bayestar.fits"].
Proof.
  intros H. specialize (H [50.5] eq_refl). vm_compute in H. discriminate H.
Qed.

(** Whole numbers of percent up to 100, by enumeration. *)
Lemma whole_percents_agree (n : nat) :
  (n <= 100)%nat -> whole_percent_agrees n = true.
Proof.
  intros Hn.
  assert (Hall : forallb whole_percent_agrees (seq 0 101) = true)
    by (vm_compute; reflexivity).
  rewrite forallb_forall in Hall. apply Hall, in_seq. lia.
Qed.

(** C2, as the code has it.  The labels of the contour lines show each
    percentage as ['%g'] formats it, unrounded; the annotation shows it
    rounded to the nearest integer, ties to even.  For a whole number of
    percent from 0 to 100 the two agree, and show that number. *)
Theorem C2_labels_unrounded_annotation_rounded (E : Env)
    (argv : list argument) (t : list call) (opts : Namespace) (st : Locals)
    (ps : list float) :
  before_annotation E argv = (t, inr (opts, st)) ->
  annotate opts = true ->
  contour opts = Some ps ->
  ps <> [] ->
  label_texts (trace (main E argv)) =
  map (percent_format (if text_usetex E then "%g\%%" else "%g%%")) ps /\
  (exists areas,
     length areas = length ps /\
     annotation_texts (trace (main E argv)) =
     [join_lines
        (event_line E (metadata st) ++
         zip_with (fun p a => annotated_percent p +:+ "% area: " +:+
                              format_d a +:+ " deg²") ps areas)]) /\
  (forall n, (n <= 100)%nat ->
     percent_format (if text_usetex E then "%g\%%" else "%g%%")
       (float_of_nat n) =
     pretty n +:+ (if text_usetex E then "\%" else "%") /\
     annotated_percent (float_of_nat n) = pretty n).
Proof.
  intros Hb Han Hps Hne.
  destruct (main_from_annotation_returns _ _ _ _ _ Hb)
    as (Hmain & radecs & nside & gps & obstime & vmax & nest & -> & _ & _ & _
        & _ & _ & Hcls).
  rewrite Hps in Hcls. destruct ps as [|p ps]; [contradiction|].
  cbn [truthy] in Hcls. destruct Hcls as (levels & Hl & Hcls).
  rewrite Hmain, Han. cbn [trace fst].
  repeat split.
  - rewrite !label_texts_app, label_texts_opens, label_texts_map_calls,
      label_texts_markers, Hcls, Hps.
    cbn [default app label_texts flat_map id]. now rewrite !app_nil_r.
  - unfold contour_area_lines. rewrite Hps, Hcls.
    cbn [truthy default from_option id].
    destruct (area_lines_percents (p :: ps) (map (fun x => 100 * x) levels)
                (deg2perpix st)) as (areas & Hlen & ->).
    exists areas. split; [exact Hlen|].
    rewrite !annotation_texts_app, annotation_texts_opens,
      annotation_texts_map_calls, annotation_texts_markers.
    reflexivity.
  - pose proof (whole_percents_agree n H) as Hn.
    unfold whole_percent_agrees in Hn.
    apply andb_prop in Hn as [Hn _]. apply andb_prop in Hn as [Hn1 Hn2].
    apply String.eqb_eq in Hn1, Hn2. now destruct (text_usetex E).
  - pose proof (whole_percents_agree n H) as Hn.
    unfold whole_percent_agrees in Hn.
    apply andb_prop in Hn as [_ Hn]. now apply String.eqb_eq in Hn.
Qed.

Lemma C2_witness :
  label_texts (trace (main (env world)
     [arg_contour [50; 90]; arg_annotate; arg_input "bayestar.fits"])) =
  ["50%"; "90%"] /\
  annotated_percent (float_of_nat 50) = "50".
Proof.
  destruct (C2_labels_unrounded_annotation_rounded (env world)
              [arg_contour [50; 90]; arg_annotate; arg_input "bayestar.fits"]
              (fst (before_annotation (env world)
                 [arg_contour [50; 90]; arg_annotate; arg_input "bayestar.fits"]))
              (namespace_of [arg_contour [50; 90]; arg_annotate;
                             arg_input "bayestar.fits"])
              (locals header (Some percent_levels)) [50; 90])
    as (Hlabels & _ & Hwhole).
  - vm_compute; reflexivity.
  - reflexivity.
  - reflexivity.
  - discriminate.
  - split; [exact Hlabels|]. apply (Hwhole 50%nat). lia.
Defined.

(** C3.  With [--annotate] and [--contour], the text has one line per
    percentage [p] (after the event line, if any): the rounded
    percentage, and the area [round(N * A)] in square degrees, where [A]
    is the pixel area and [N] the number of pixels whose credible level,
    in percent, is strictly below [p].  The percentages are numbers, not
    nan. *)
Theorem C3_area_of_credible_region (E : Env) (argv : list argument)
    (t : list call) (opts : Namespace) (st : Locals) (ps : list float) :
  before_annotation E argv = (t, inr (opts, st)) ->
  annotate opts = true ->
  contour opts = Some ps ->
  ps <> [] ->
  List.Forall (fun p => is_nan p = false) ps ->
  exists nside levels,
    hp_npix2nside E (length (skymap st)) = inr nside /\
    hp_nside2pixarea E nside = inr (deg2perpix st) /\
    find_greedy_credible_levels E (skymap st) = inr levels /\
    main E argv =
    (t ++ [ax_text 1 1
             (join_lines
                (event_line E (metadata st) ++
                 map (area_line (map (fun x => 100 * x) levels) (deg2perpix st))
                     ps))
             "right";
           opts_output],
     inr tt).
Proof.
  intros Hb Han Hps Hne Hnan.
  destruct (main_from_annotation_returns _ _ _ _ _ Hb)
    as (Hmain & radecs & nside & gps & obstime & vmax & nest & _ & _ & Hn & Ha
        & _ & _ & Hcls).
  rewrite Hps in Hcls. destruct ps as [|p ps]; [contradiction|].
  cbn [truthy] in Hcls. destruct Hcls as (levels & Hl & Hcls).
  exists nside, levels. repeat split; try assumption.
  rewrite Hmain, Han. unfold contour_area_lines.
  rewrite Hps, Hcls. cbn [truthy default].
  now rewrite (area_lines_spec _ _ _ Hnan).
Qed.

Lemma C3_witness :
  exists nside levels,
    hp_npix2nside (env world) (length pixels) = inr nside /\
    hp_nside2pixarea (env world) nside = inr pixel_area /\
    find_greedy_credible_levels (env world) pixels = inr levels /\
    main (env world) [arg_contour [50; 90]; arg_annotate;
                      arg_input "bayestar.fits"] =
    (fst (before_annotation (env world)
            [arg_contour [50; 90]; arg_annotate; arg_input "bayestar.fits"])
     ++ [ax_text 1 1
           (join_lines
              (event_line (env world) header ++
               map (area_line (map (fun x => 100 * x) levels) pixel_area)
                   [50; 90]))
           "right";
         opts_output],
     inr tt).
Proof.
  refine (C3_area_of_credible_region (env world)
            [arg_contour [50; 90]; arg_annotate; arg_input "bayestar.fits"]
            _
            (namespace_of [arg_contour [50; 90]; arg_annotate;
                           arg_input "bayestar.fits"])
            (locals header (Some percent_levels)) [50; 90] _ _ _ _ _).
  - vm_compute; reflexivity.
  - reflexivity.
  - reflexivity.
  - discriminate.
  - repeat constructor.
Defined.

(** C4.  The projection of the axes is ['geo degrees mollweide'] when
    [--geo] is given and ['astro hours mollweide'] otherwise: it is so for
    every [plt.axes] call of any run, and a run that returns has made the
    call. *)
Theorem C4_geo_selects_projection (E : Env) (argv : list argument) :
  (forall projection obstime,
     In (plt_axes projection obstime) (trace (main E argv)) ->
     projection = if given_geo argv then "geo degrees mollweide"
                  else "astro hours mollweide") /\
  (outcome (main E argv) = inr tt ->
   exists obstime,
     In (plt_axes (if given_geo argv then "geo degrees mollweide"
                   else "astro hours mollweide") obstime)
        (trace (main E argv))).
Proof.
  split.
  - intros projection obstime H.
    apply main_calls in H
      as [H|(Hp & [H|(t & st & Hd & [H|(Hm & [H|(Ha & H)])])])].
    + apply parse_args_calls in H. discriminate.
    + apply draw_map_calls in H as (_ & H & _). eapply H. reflexivity.
    + apply mark_calls in H. discriminate.
    + apply annotate_plot_calls in H. discriminate.
    + discriminate.
  - intros Hret.
    destruct (main_returns_map_calls E argv Hret)
      as (st & nside & gps & obstime & vmax & nest & _ & _ & _ & _ & _ & _
          & Hin).
    exists obstime. apply Hin. unfold map_calls. cbn. tauto.
Qed.

Lemma C4_witness :
  "geo degrees mollweide"%string =
  (if given_geo [arg_geo; arg_input "bayestar.fits"]
   then "geo degrees mollweide"%string else "astro hours mollweide"%string) /\
  exists obstime,
    In (plt_axes (if given_geo [arg_input "bayestar.fits"]
                  then "geo degrees mollweide"
                  else "astro hours mollweide") obstime)
       (trace (main (env world) [arg_input "bayestar.fits"])).
Proof.
  split.
  - apply (proj1 (C4_geo_selects_projection (env world)
                    [arg_geo; arg_input "bayestar.fits"])
             _ "2015-09-14T09:50:45.500").
    vm_compute. do 2 right. left. reflexivity.
  - apply (proj2 (C4_geo_selects_projection (env world)
                    [arg_input "bayestar.fits"])).
    vm_compute. reflexivity.
Defined.

(** C5.  With [--annotate] and no ['objid'] in the metadata, a run that has
    reached the annotation ends normally: the text has no event line, it
    is made of the area lines (one per percentage when [--contour] is
    given, none otherwise), and the figure is written. *)
Theorem C5_missing_objid_is_skipped (E : Env) (argv : list argument)
    (t : list call) (opts : Namespace) (st : Locals) :
  before_annotation E argv = (t, inr (opts, st)) ->
  annotate opts = true ->
  metadata st !! "objid" = None ->
  main E argv =
  (t ++ [ax_text 1 1 (join_lines (contour_area_lines opts st)) "right";
         opts_output],
   inr tt) /\
  (forall ps, contour opts = Some ps -> ps <> [] ->
     exists levels,
       find_greedy_credible_levels E (skymap st) = inr levels /\
       contour_area_lines opts st =
       area_lines ps (map (fun x => 100 * x) levels) (deg2perpix st) /\
       length (contour_area_lines opts st) = length ps).
Proof.
  intros Hb Han Hobjid.
  destruct (before_annotation_returns _ _ _ _ _ Hb) as (t1 & t2 & Hm & _ & _).
  destruct (before_markers_returns _ _ _ _ _ Hm) as (_ & t3 & Hd & _).
  split.
  - rewrite main_from_annotation, (bind_inr _ _ _ _ Hb).
    rewrite (annotate_plot_run E opts st (draw_map_cls _ _ _ _ Hd)), Han.
    unfold event_line. rewrite Hobjid. reflexivity.
  - intros ps Hps Hne.
    apply draw_map_returns in Hd
      as (? & ? & ? & ? & ? & _ & _ & _ & _ & _ & _ & _ & _ & Hcls & _).
    unfold contour_area_lines. rewrite Hps in *.
    destruct ps as [|p ps]; [contradiction|]. cbn [truthy] in *.
    destruct Hcls as (levels & Hl & ->). exists levels.
    repeat split; [exact Hl|].
    unfold area_lines, np_searchsorted.
    rewrite length_map, length_zip, !length_map. cbn. lia.
Qed.

Lemma C5_witness :
  main (env world) [arg_annotate; arg_input "anonymous.fits"; arg_contour [90]] =
  (fst (before_annotation (env world)
          [arg_annotate; arg_input "anonymous.fits"; arg_contour [90]])
   ++ [ax_text 1 1 "90% area: 10313 deg²" "right"; opts_output],
   inr tt).
Proof.
  refine (proj1 (C5_missing_objid_is_skipped (env world)
            [arg_annotate; arg_input "anonymous.fits"; arg_contour [90]]
            _
            (namespace_of [arg_annotate; arg_input "anonymous.fits";
                           arg_contour [90]])
            {| skymap := pixels;
               metadata := delete "objid" header;
               deg2perpix := pixel_area;
               probperdeg2 := map (fun x => x / pixel_area) pixels;
               cls := Some (map (fun x => 100 * x)
                              match credible_levels pixels with
                              | inr l => l
                              | inl _ => []
                              end) |} _ _ _));
    vm_compute; reflexivity.
Defined.

(** C6.  With [--inj-database], a run that has drawn the map looks up
    ['objid'] unguarded and unpacks the rows of the query as exactly one:
    a missing key ends the run with [KeyError], no row or several rows
    end it with the [ValueError] of the unpacking, and one row is the
    only way on. *)
Theorem C6_injection_lookup (E : Env) (argv : list argument)
    (t : list call) (opts : Namespace) (st : Locals) (db : string) :
  before_markers E argv = (t, inr (opts, st)) ->
  inj_database opts = Some db ->
  (metadata st !! "objid" = None ->
   main E argv = (t, inl (KeyError "objid"))) /\
  (forall objid rows,
     metadata st !! "objid" = Some objid ->
     execute_fetchall E db query objid = inr rows ->
     length rows <> 1%nat ->
     exists msg, main E argv = (t, inl (ValueError msg))) /\
  (forall objid row,
     metadata st !! "objid" = Some objid ->
     execute_fetchall E db query objid = inr [row] ->
     collect_radecs E opts (metadata st) =
     ([], inr (radec opts ++ [(np_rad2deg row.1, np_rad2deg row.2)]))) /\
  (outcome (main E argv) = inr tt ->
   exists objid row,
     metadata st !! "objid" = Some objid /\
     execute_fetchall E db query objid = inr [row]).
Proof.
  intros Hb Hdb.
  assert (Hmain : forall x, mark E opts st = ([], inl x) ->
                            main E argv = (t, inl x)).
  { intros x Hx. rewrite main_from_markers, (bind_inr _ _ _ _ Hb).
    rewrite Hx. cbn. now rewrite app_nil_r. }
  repeat split.
  - intros Hobjid. apply Hmain. unfold mark, collect_radecs.
    rewrite Hdb. forward. reflexivity.
  - intros objid rows Hobjid Hrows Hlen.
    destruct rows as [|row [|row' rows]]; [|cbn in Hlen; lia|];
      eexists; apply Hmain; unfold mark, collect_radecs;
      rewrite Hdb; forward; reflexivity.
  - intros objid [lon lat] Hobjid Hrows. unfold collect_radecs.
    rewrite Hdb. forward. reflexivity.
  - intros Hret.
    destruct (main_returns E argv (trace (main E argv)))
      as (t1 & st' & radecs & Hb' & Hc & _).
    { rewrite <- Hret. apply surjective_run. }
    rewrite Hb in Hb'. injection Hb' as _ -> ->.
    apply collect_radecs_returns in Hc as [_ Hc].
    rewrite Hdb in Hc.
    destruct Hc as (objid & lon & lat & Hobjid & Hrows & _). eauto.
Qed.

Lemma C6_witness :
  main (env world) [arg_inj_database "inj.sqlite"; arg_input "anonymous.fits"] =
  (fst (before_markers (env world)
          [arg_inj_database "inj.sqlite"; arg_input "anonymous.fits"]),
   inl (KeyError "objid")) /\
  (exists msg,
     main (env world) [arg_inj_database "two.sqlite"; arg_input "bayestar.fits"] =
     (fst (before_markers (env world)
             [arg_inj_database "two.sqlite"; arg_input "bayestar.fits"]),
      inl (ValueError msg))) /\
  collect_radecs (env world)
    (namespace_of [arg_inj_database "inj.sqlite"; arg_input "bayestar.fits"])
    header =
  ([], inr [(np_rad2deg 1.5, np_rad2deg (-0.5))]).
Proof.
  split; [|split].
  - refine (proj1 (C6_injection_lookup (env world)
              [arg_inj_database "inj.sqlite"; arg_input "anonymous.fits"] _
              (namespace_of [arg_inj_database "inj.sqlite";
                             arg_input "anonymous.fits"])
              (locals (delete "objid" header) None) "inj.sqlite" _ _) _);
      vm_compute; reflexivity.
  - refine (proj1 (proj2 (C6_injection_lookup (env world)
              [arg_inj_database "two.sqlite"; arg_input "bayestar.fits"] _
              (namespace_of [arg_inj_database "two.sqlite";
                             arg_input "bayestar.fits"])
              (locals header None) "two.sqlite" _ _))
              (PyStr "G211117") [(1.5, -0.5); (1, 0.25)] _ _ _);
      vm_compute; (reflexivity || lia).
  - refine (proj1 (proj2 (proj2 (C6_injection_lookup (env world)
              [arg_inj_database "inj.sqlite"; arg_input "bayestar.fits"]
              (fst (before_markers (env world)
                 [arg_inj_database "inj.sqlite"; arg_input "bayestar.fits"]))
              (namespace_of [arg_inj_database "inj.sqlite";
                             arg_input "bayestar.fits"])
              (locals header None) "inj.sqlite" _ _)))
              (PyStr "G211117") (1.5, -0.5) _ _);
      vm_compute; reflexivity.
Defined.

(** C7.  A metadata key other than ['objid'] that is missing makes the
    run fail with the [KeyError] of the lookup: for ['gps_time'] before
    anything is drawn, for ['nest'] after the axes and the grid.  No
    failure is recovered from: a run that ends in an exception has not
    written the figure. *)
Theorem C7_missing_key_propagates (E : Env) (argv : list argument)
    (t : list call) (opts : Namespace) (skymap : list float)
    (md : gmap string pyval) (nside : Z) (area : float) :
  parse_args E argv = (t, inr opts) ->
  fits_read_sky_map E (file_name (input opts)) = inr (skymap, md) ->
  hp_npix2nside E (length skymap) = inr nside ->
  hp_nside2pixarea E nside = inr area ->
  (md !! "gps_time" = None ->
   main E argv =
   (t ++ [fits_read (file_name (input opts)) PyNone],
    inl (KeyError "gps_time"))) /\
  (forall gps_time obstime vmax,
     md !! "gps_time" = Some gps_time ->
     Time_gps_utc_isot E gps_time = inr obstime ->
     ndarray_max E (map (fun x => x / area) skymap) = inr vmax ->
     md !! "nest" = None ->
     main E argv =
     (t ++ [fits_read (file_name (input opts)) PyNone;
            plt_axes (if geo opts then "geo degrees mollweide"
                      else "astro hours mollweide") obstime;
            ax_grid],
      inl (KeyError "nest"))) /\
  (forall e, outcome (main E argv) = inl e ->
     ~ In opts_output (trace (main E argv))).
Proof.
  intros Hparse Hread Hnside Harea.
  assert (Hmain : main E argv = (t ++ trace (run E opts), outcome (run E opts)))
    by (unfold main; now apply bind_inr).
  repeat split.
  - intros Hgps. rewrite Hmain. unfold run, draw_map.
    forward. reflexivity.
  - intros gps_time obstime vmax Hgps Htime Hmax Hnest.
    rewrite Hmain. unfold run, draw_map.
    forward. reflexivity.
  - intros e He Hin. apply output_only_on_return in Hin. congruence.
Qed.

Lemma C7_witness :
  main (env world) [arg_input "undated.fits"] =
  ([builtin_open "undated.fits" "rb"; fits_read "undated.fits" PyNone],
   inl (KeyError "gps_time")) /\
  main (env world) [arg_input "unordered.fits"] =
  ([builtin_open "unordered.fits" "rb"; fits_read "unordered.fits" PyNone;
    plt_axes "astro hours mollweide" "2015-09-14T09:50:45.500"; ax_grid],
   inl (KeyError "nest")).
Proof.
  split.
  - refine (proj1 (C7_missing_key_propagates (env world)
              [arg_input "undated.fits"] [builtin_open "undated.fits" "rb"]
              (namespace_of [arg_input "undated.fits"]) pixels
              (delete "gps_time" header) 1 pixel_area _ _ _ _) _);
      vm_compute; reflexivity.
  - refine (proj1 (proj2 (C7_missing_key_propagates (env world)
              [arg_input "unordered.fits"] [builtin_open "unordered.fits" "rb"]
              (namespace_of [arg_input "unordered.fits"]) pixels
              (delete "nest" header) 1 pixel_area _ _ _ _))
              (PyFloat 1126259462.5) "2015-09-14T09:50:45.500"
              match amax (map (fun x => x / pixel_area) pixels) with
              | inr vmax => vmax
              | inl _ => 0
              end _ _ _ _);
      vm_compute; reflexivity.
Defined.

(** C8.  In a run that returns, the stars drawn are those of the
    [--radec] pairs, one each and in order, each the call
    [ax.plot_coord(SkyCoord(ra, dec, unit='deg'), '*',
    markerfacecolor='white', markeredgecolor='black', markersize=10)] at
    the right ascension and declination of its pair, followed by the
    star of the injection when [--inj-database] is given.  Without
    [--inj-database] a run that fails has drawn the first of them only,
    and no star at all is drawn when no [--radec] is given. *)
Theorem C8_one_star_per_radec (E : Env) (argv : list argument) :
  (outcome (main E argv) = inr tt ->
   exists injection,
     markers (trace (main E argv)) =
     map (fun rd : float * float =>
            ax_plot_coord rd.1 rd.2 "deg" "*" "white" "black" 10)
         (given_radec argv ++ injection) /\
     match given_inj_database argv with
     | Some _ => length injection = 1%nat
     | None => injection = []
     end) /\
  (given_inj_database argv = None ->
   (exists n, markers (trace (main E argv)) =
              map (fun rd : float * float =>
                     ax_plot_coord rd.1 rd.2 "deg" "*" "white" "black" 10)
                  (take n (given_radec argv))) /\
   (given_radec argv = [] -> markers (trace (main E argv)) = [])).
Proof.
  change (fun rd : float * float =>
            ax_plot_coord rd.1 rd.2 "deg" "*" "white" "black" 10)
    with marker_call.
  split.
  - intros Hret.
    destruct (main_returns E argv (trace (main E argv)))
      as (t1 & st & radecs & Hb & Hc & _ & ->).
    { rewrite <- Hret. apply surjective_run. }
    apply collect_radecs_returns in Hc as [_ Hc]. cbn in Hc.
    apply before_markers_returns in Hb as (_ & t2 & Hd & ->).
    assert (Hmarkers :
      markers ((opens argv ++ t2) ++ map marker_call radecs ++
               [plot_outline_text] ++
               trace (annotate_plot E (namespace_of argv) st) ++ [opts_output]) =
      map marker_call radecs).
    { rewrite !markers_app, markers_marker_calls.
      rewrite (markers_other_stage (opens argv) 0);
        [|lia|unfold opens, file_of; intros c;
              destruct (given_input argv) as [p|]; [|intros []];
              destruct (String.eqb p "-");
              [intros []|intros [<-|[]]; reflexivity]].
      rewrite (markers_other_stage t2 1);
        [|lia|intros c Hin; eapply draw_map_calls; rewrite Hd; exact Hin].
      rewrite (markers_other_stage (trace (annotate_plot E _ st)) 3)
        by (lia || apply annotate_plot_calls).
      cbn. now rewrite app_nil_r. }
    rewrite Hmarkers.
    destruct (given_inj_database argv) as [db|].
    + destruct Hc as (objid & lon & lat & _ & _ & ->).
      now exists [(np_rad2deg lon, np_rad2deg lat)].
    + subst radecs. exists []. now rewrite app_nil_r.
  - intros Hdb.
    assert (Hprefix : exists n, markers (trace (main E argv)) =
                                map marker_call (take n (given_radec argv))).
    { rewrite main_trace, markers_app.
      rewrite (markers_other_stage (trace (parse_args E argv)) 0)
        by (lia || apply parse_args_calls).
      destruct (outcome (parse_args E argv)) as [e|opts] eqn:Hp;
        [now exists 0%nat|].
      apply parse_args_outcome in Hp as ->. rewrite markers_app.
      rewrite (markers_other_stage (trace (draw_map E _)) 1)
        by (lia || (intros c Hc; now apply draw_map_calls in Hc)).
      destruct (outcome (draw_map E _)) as [e|st]; [now exists 0%nat|].
      destruct (mark_markers E (namespace_of argv) st Hdb) as [n Hn].
      exists n. rewrite markers_app, Hn. cbn [app].
      destruct (outcome (mark E _ st)) as [e|[]]; [now rewrite app_nil_r|].
      rewrite markers_app.
      rewrite (markers_other_stage (trace (annotate_plot E _ st)) 3)
        by (lia || apply annotate_plot_calls).
      cbn [app].
      destruct (outcome (annotate_plot E _ st)); now rewrite app_nil_r. }
    split; [exact Hprefix|].
    intros Hnone. destruct Hprefix as [n ->]. rewrite Hnone. now destruct n.
Qed.

Lemma C8_witness :
  (exists injection,
     markers (trace (main (env world)
        [arg_radec 10 20; arg_input "bayestar.fits"; arg_radec 30 40])) =
     map (fun rd : float * float =>
            ax_plot_coord rd.1 rd.2 "deg" "*" "white" "black" 10)
       (given_radec [arg_radec 10 20; arg_input "bayestar.fits"; arg_radec 30 40]
        ++ injection) /\
     injection = []) /\
  markers (trace (main (env world) [arg_input "bayestar.fits"])) = [].
Proof.
  split.
  - refine (proj1 (C8_one_star_per_radec (env world)
              [arg_radec 10 20; arg_input "bayestar.fits"; arg_radec 30 40]) _);
      vm_compute; reflexivity.
  - refine (proj2 (proj2 (C8_one_star_per_radec (env world)
              [arg_input "bayestar.fits"]) _) _);
      vm_compute; reflexivity.
Defined.

(** C9.  Without the positional argument the reader is not handed the
    standard input: whatever the environment, it is called with the
    string ['<stdin>'], the name of the stream, as a file name.  With a
    sky map piped into the standard input and no file of that name, the
    run fails; the same sky map given as a file is plotted.  A file that
    is given is opened in mode ['rb'] and the reader is called with its
    name. *)
Theorem C9_standard_input_is_read_by_name :
  (forall E argv name nest,
     given_input argv = None ->
     In (fits_read name nest) (trace (main E argv)) -> name = "<stdin>") /\
  (stdin piped = Some (pixels, header) /\
   main (env piped) [] =
   ([fits_read "<stdin>" PyNone], inl (FileNotFoundError "<stdin>")) /\
   outcome (main (env piped) [arg_input "bayestar.fits"]) = inr tt) /\
  (forall E argv path name nest,
     given_input argv = Some path ->
     String.eqb path "-" = false ->
     In (fits_read name nest) (trace (main E argv)) ->
     name = path /\ In (builtin_open path "rb") (trace (main E argv))).
Proof.
  assert (Hread : forall E argv name nest,
            In (fits_read name nest) (trace (main E argv)) ->
            name = file_name (input_file argv) /\
            trace (parse_args E argv) = opens argv).
  { intros E argv name nest H.
    apply main_calls in H
      as [H|(Hp & [H|(t & st & Hd & [H|(Hm & [H|(Ha & H)])])])].
    - apply parse_args_calls in H. discriminate.
    - apply draw_map_calls in H as (_ & _ & _ & H).
      split; [exact (H name nest eq_refl)|].
      eapply parse_args_returns.
      rewrite (surjective_run (parse_args E argv)), Hp. reflexivity.
    - apply mark_calls in H. discriminate.
    - apply annotate_plot_calls in H. discriminate.
    - discriminate. }
  split; [|split].
  - intros E argv name nest Hin H.
    apply Hread in H as [-> _]. unfold input_file. now rewrite Hin.
  - repeat split; vm_compute; reflexivity.
  - intros E argv path name nest Hin Hpath H.
    destruct (Hread _ _ _ _ H) as [-> Hopens].
    unfold input_file, file_of. rewrite Hin, Hpath. split; [reflexivity|].
    rewrite main_trace, Hopens. unfold opens. rewrite Hin, Hpath.
    now left.
Qed.

(** C10.  With [--inj-database] and one row from the query, the pair of
    the row is converted from radians to degrees and put after the
    [--radec] pairs; in a run that returns, its star is the last one, at
    the converted coordinates. *)
Theorem C10_injection_marker_in_degrees (E : Env) (argv : list argument)
    (t : list call) (opts : Namespace) (st : Locals) (db : string)
    (objid : pyval) (lon lat : float) :
  before_markers E argv = (t, inr (opts, st)) ->
  inj_database opts = Some db ->
  metadata st !! "objid" = Some objid ->
  execute_fetchall E db query objid = inr [(lon, lat)] ->
  collect_radecs E opts (metadata st) =
  ([], inr (given_radec argv ++ [(np_rad2deg lon, np_rad2deg lat)])) /\
  (outcome (main E argv) = inr tt ->
   markers (trace (main E argv)) =
   map marker_call (given_radec argv) ++
   [ax_plot_coord (np_rad2deg lon) (np_rad2deg lat)
      "deg" "*" "white" "black" 10]).
Proof.
  intros Hb Hdb Hobjid Hrows.
  destruct (before_markers_returns _ _ _ _ _ Hb) as (-> & t2 & Hd & ->).
  assert (Hc : collect_radecs E (namespace_of argv) (metadata st) =
               ([], inr (given_radec argv ++ [(np_rad2deg lon, np_rad2deg lat)]))).
  { unfold collect_radecs. rewrite Hdb. forward. reflexivity. }
  split; [exact Hc|].
  intros Hret.
  destruct (main_returns E argv (trace (main E argv)))
    as (t1 & st' & radecs & Hb' & Hc' & _ & ->).
  { rewrite <- Hret. apply surjective_run. }
  rewrite Hb in Hb'. injection Hb' as <- <-.
  rewrite Hc in Hc'. injection Hc' as <-.
  rewrite !markers_app, markers_marker_calls.
  rewrite (markers_other_stage (opens argv) 0);
    [|lia|unfold opens, file_of; intros c;
          destruct (given_input argv) as [p|]; [|intros []];
          destruct (String.eqb p "-"); [intros []|intros [<-|[]]; reflexivity]].
  rewrite (markers_other_stage t2 1);
    [|lia|intros c Hin; eapply draw_map_calls; rewrite Hd; exact Hin].
  rewrite (markers_other_stage (trace (annotate_plot E _ st)) 3)
    by (lia || apply annotate_plot_calls).
  cbn [app markers List.filter is_marker]. rewrite app_nil_r.
  now rewrite map_app.
Qed.

Lemma C10_witness :
  collect_radecs (env world)
    (namespace_of [arg_radec 10 20; arg_inj_database "inj.sqlite";
                   arg_input "bayestar.fits"])
    header =
  ([], inr (given_radec [arg_radec 10 20; arg_inj_database "inj.sqlite";
                         arg_input "bayestar.fits"] ++
            [(np_rad2deg 1.5, np_rad2deg (-0.5))])).
Proof.
  refine (proj1 (C10_injection_marker_in_degrees (env world)
            [arg_radec 10 20; arg_inj_database "inj.sqlite";
             arg_input "bayestar.fits"]
            (fst (before_markers (env world)
               [arg_radec 10 20; arg_inj_database "inj.sqlite";
                arg_input "bayestar.fits"]))
            (namespace_of [arg_radec 10 20; arg_inj_database "inj.sqlite";
                           arg_input "bayestar.fits"])
            (locals header None) "inj.sqlite" (PyStr "G211117") 1.5 (-0.5)
            _ _ _ _));
    vm_compute; reflexivity.
Defined.


End Claims.

(** * Further properties of the tool *)

Section Extras.
Import Run Parser Stages Sample.
Local Open Scope float_scope.

(** ** The parser *)

Lemma accepted_after_input E seen path argv :
  accepted_after E seen (arg_input path :: argv) =
  negb seen && readable E path && accepted_after E true argv.
Proof.
  unfold accepted_after. cbn [existsb is_empty_contour positionals databases
                              flat_map app forallb length orb].
  fold (positionals argv). fold (databases argv).
  destruct seen, (existsb is_empty_contour argv), (readable E path),
    (forallb (readable E) (positionals argv)),
    (forallb (can_connect E) (databases argv)),
    (length (positionals argv)) as [|[|n]]; reflexivity.
Qed.

Lemma accepted_after_database E seen file argv :
  accepted_after E seen (arg_inj_database file :: argv) =
  can_connect E file && accepted_after E seen argv.
Proof.
  unfold accepted_after. cbn [existsb is_empty_contour positionals databases
                              flat_map app forallb length orb].
  fold (positionals argv). fold (databases argv).
  destruct (can_connect E file), (existsb is_empty_contour argv),
    (length (positionals argv) + (if seen then 1 else 0) <=? 1)%nat,
    (forallb (readable E) (positionals argv)),
    (forallb (can_connect E) (databases argv)); reflexivity.
Qed.

Lemma accepted_after_other E seen a argv :
  is_empty_contour a = false ->
  (forall path, a <> arg_input path) ->
  (forall file, a <> arg_inj_database file) ->
  accepted_after E seen (a :: argv) = accepted_after E seen argv.
Proof.
  intros Ha Hin Hdb. unfold accepted_after. cbn [existsb]. rewrite Ha.
  destruct a; try reflexivity.
  - now destruct (Hdb file).
  - now destruct (Hin path).
Qed.

Lemma accepted_after_false E argv : accepted_after E false argv = accepted E argv.
Proof. unfold accepted_after, accepted. now rewrite Nat.add_0_r. Qed.

Lemma take_actions_outcome E argv : forall ns,
  match outcome (take_actions E ns argv) with
  | inr _ => accepted_after E (bool_decide (is_Some (p_input ns))) argv = true
  | inl e =>
      e = SystemExit 2 /\
      accepted_after E (bool_decide (is_Some (p_input ns))) argv = false
  end.
Proof.
  induction argv as [|a argv IH]; intros ns.
  - cbn. unfold accepted_after. cbn. now destruct (p_input ns).
  - cbn [take_actions]. rewrite outcome_bind.
    destruct ns as [an co cb rd db ge inp].
    destruct a as [|[|p ps]| |ra dec|file| |path].
    all: try (rewrite accepted_after_other
                by (reflexivity || (intros; discriminate));
              cbn [take_action outcome snd mret M_ret];
              match goal with
              | |- context [take_actions _ ?ns' _] => exact (IH ns')
              end).
    + cbn. split; reflexivity.
    + rewrite accepted_after_database. cbn [take_action].
      unfold SQLiteType_r. destruct (can_connect E file).
      * rewrite bind_ret. cbn [outcome snd mret M_ret andb].
        apply (IH (Build_Partial an co cb rd (Some file) ge inp)).
      * cbn. split; reflexivity.
    + rewrite accepted_after_input. destruct inp as [f|].
      * cbn. split; reflexivity.
      * cbn [take_action]. rewrite outcome_bind.
        unfold FileType_rb, readable.
        destruct (String.eqb path "-"); cbn.
        -- apply (IH (Build_Partial an co cb rd db ge (Some sys_stdin))).
        -- destruct (can_open E path); cbn; [|split; reflexivity].
           apply (IH (Build_Partial an co cb rd db ge (Some (opened path "rb")))).
Qed.

Lemma parse_args_accepted E argv :
  outcome (parse_args E argv) =
  if accepted E argv then inr (namespace_of argv) else inl (SystemExit 2).
Proof.
  pose proof (take_actions_outcome E argv parser) as H.
  rewrite accepted_after_false in H.
  destruct (outcome (parse_args E argv)) as [e|opts] eqn:Ho.
  - unfold parse_args in Ho. rewrite outcome_bind in Ho.
    destruct (outcome (take_actions E parser argv)) as [e'|ns].
    + destruct H as [-> ->]. congruence.
    + rewrite outcome_bind in Ho. destruct (p_input ns); discriminate.
  - pose proof (parse_args_outcome _ _ _ Ho) as ->.
    unfold parse_args in Ho. rewrite outcome_bind in Ho.
    destruct (outcome (take_actions E parser argv)) as [e'|ns];
      [discriminate|]. now rewrite H.
Qed.



(** The parser opens nothing but a positional argument other than ['-']. *)
Lemma take_actions_opens E argv : forall ns c,
  In c (trace (take_actions E ns argv)) ->
  exists path, c = builtin_open path "rb" /\
               In path (positionals argv) /\ String.eqb path "-" = false.
Proof.
  induction argv as [|a argv IH]; intros ns c; cbn [take_actions].
  - intros [].
  - intros H. apply in_trace_bind in H as [H|(ns' & _ & H)].
    + destruct ns as [an co cb rd db ge inp].
      destruct a as [|[|p ps]| |ra dec|file| |path];
        try (unfold take_action, SQLiteType_r in H;
             destruct (can_connect E file));
        cbn in H; try tauto.
      destruct inp; [destruct H|].
      unfold FileType_rb in H.
      destruct (String.eqb path "-") eqn:Hdash; [destruct H|].
      destruct (can_open E path); [|destruct H].
      cbn in H. destruct H as [<-|[]]. exists path. cbn. auto.
    + apply IH in H as (path & -> & Hin & Hdash). exists path.
      repeat split; [|exact Hdash]. unfold positionals in *.
      cbn [flat_map]. apply in_app_iff. now right.
Qed.

Lemma parse_args_opens E argv c :
  In c (trace (parse_args E argv)) ->
  exists path, c = builtin_open path "rb" /\
               In path (positionals argv) /\ String.eqb path "-" = false.
Proof.
  unfold parse_args. intros H.
  apply in_trace_bind in H as [H|(ns & _ & H)];
    [eapply take_actions_opens, H|].
  destruct (p_input ns); cbn in H; tauto.
Qed.

Lemma accepted_dash E argv1 argv2 :
  positionals (argv1 ++ argv2) = [] ->
  accepted E (argv1 ++ arg_input "-" :: argv2) = accepted E (argv1 ++ argv2) /\
  namespace_of (argv1 ++ arg_input "-" :: argv2) = namespace_of (argv1 ++ argv2) /\
  positionals (argv1 ++ arg_input "-" :: argv2) = ["-"%string].
Proof.
  unfold positionals. rewrite flat_map_app. intros Hpos.
  apply app_eq_nil in Hpos as [Hp1 Hp2].
  assert (Hpos : flat_map (fun a => match a with arg_input p => [p] | _ => [] end)
                   (argv1 ++ arg_input "-" :: argv2) = ["-"%string]).
  { rewrite flat_map_app. cbn. now rewrite Hp1, Hp2. }
  repeat split; [| |exact Hpos].
  - unfold accepted, positionals, databases.
    rewrite Hpos, !flat_map_app, Hp1, Hp2.
    rewrite !existsb_app. reflexivity.
  - unfold namespace_of, given_annotate, given_colorbar, given_geo,
      given_radec, given_contour, given_inj_database, input_file, given_input.
    rewrite Hpos, !existsb_app, !fold_left_app, !flat_map_app, Hp1, Hp2.
    reflexivity.
Qed.

(** X2.  Giving ['-'] as the positional argument is the same as omitting
    it: the run makes the same calls and ends the same way. *)
Theorem X2_dash_is_the_default (E : Env) (argv1 argv2 : list argument) :
  positionals (argv1 ++ argv2) = [] ->
  main E (argv1 ++ arg_input "-" :: argv2) = main E (argv1 ++ argv2).
Proof.
  intros Hpos.
  destruct (accepted_dash E argv1 argv2 Hpos) as (Hacc & Hns & Hdash).
  assert (Hparse : parse_args E (argv1 ++ arg_input "-" :: argv2) =
                   parse_args E (argv1 ++ argv2)).
  { rewrite (surjective_run (parse_args E (argv1 ++ arg_input "-" :: argv2))),
      (surjective_run (parse_args E (argv1 ++ argv2))).
    f_equal.
    - assert (Hnil : forall argv, (forall p, In p (positionals argv) ->
                         String.eqb p "-" = true) ->
                       trace (parse_args E argv) = []).
      { intros argv Hall.
        destruct (trace (parse_args E argv)) as [|c t] eqn:Ht; [reflexivity|].
        destruct (parse_args_opens E argv c) as (p & _ & Hin & Hne).
        { rewrite Ht. now left. }
        rewrite (Hall p Hin) in Hne. discriminate. }
      rewrite !Hnil; [reflexivity| |].
      + rewrite Hpos. intros p [].
      + rewrite Hdash. intros p [<-|[]]. reflexivity.
    - rewrite !parse_args_accepted. now rewrite Hacc, Hns. }
  unfold main. now rewrite Hparse.
Qed.

Lemma X2_witness :
  main (env world) ([arg_geo] ++ arg_input "-" :: [arg_annotate]) =
  main (env world) ([arg_geo] ++ [arg_annotate]).
Proof.
  apply (X2_dash_is_the_default (env world) [arg_geo] [arg_annotate]).
  reflexivity.
Defined.

(** ** What [draw_map] draws, and when *)

Ltac same_nest :=
  repeat match goal with
  | Hk : ?g !! "nest" = Some ?v, Hk' : ?g !! "nest" = Some ?v' |- _ =>
      assert (v' = v) as -> by congruence; clear Hk'
  end.

(** Every call of [draw_map] but the reading of the sky map comes after
    the map is read, its resolution and pixel area are known, and the
    observation time is converted; each is the call that the source
    shows at that place. *)
Lemma draw_map_call_facts E opts c :
  In c (trace (draw_map E opts)) ->
  c = fits_read (file_name (input opts)) PyNone \/
  exists skymap md nside area gps_time obstime,
    fits_read_sky_map E (file_name (input opts)) = inr (skymap, md) /\
    hp_npix2nside E (length skymap) = inr nside /\
    hp_nside2pixarea E nside = inr area /\
    md !! "gps_time" = Some gps_time /\
    Time_gps_utc_isot E gps_time = inr obstime /\
    (c = plt_axes (if geo opts then "geo degrees mollweide"
                   else "astro hours mollweide") obstime \/
     c = ax_grid \/
     exists vmax nest,
       ndarray_max E (map (fun x => x / area) skymap) = inr vmax /\
       md !! "nest" = Some nest /\
       (c = ax_imshow_hpx (map (fun x => x / area) skymap) "ICRS" nest 0 vmax \/
        (colorbar opts = true /\
         (c = plot_colorbar \/ c = cb_set_label "prob. per deg$^2$")) \/
        (exists levels,
           truthy (contour opts) = true /\
           find_greedy_credible_levels E skymap = inr levels /\
           (c = ax_contour_hpx (map (fun x => 100 * x) levels) "ICRS" nest
                  "k" 0.5 (default [] (contour opts)) \/
            c = plt_clabel (default [] (contour opts))
                  (if text_usetex E then "%g\%%" else "%g%%") 6 true)) \/
        (exists geoms,
           geo opts = true /\
           coastline_geometries E = inr geoms /\
           c = plt_plot (flat_map zip_star geoms) "0.5" 0.5 "world"))).
Proof.
  unfold draw_map. intros H.
  repeat in_trace_step H.
  all: subst c; same_nest; first [now left | right].
  all: do 6 eexists; do 5 (split; [eassumption|]).
  all: first [now left | right; first [now left | right]].
  all: do 2 eexists; do 2 (split; [eassumption|]).
  all: first
         [ now left
         | right; left; split; [reflexivity|]; first [now left | now right]
         | right; right; left; eexists; split; [reflexivity|];
           split; [eassumption|]; first [now left | now right]
         | right; right; right; eexists; split; [reflexivity|];
           split; [eassumption|]; reflexivity ].
Qed.

Lemma main_drawing_call E argv c :
  In c (trace (main E argv)) -> stage_of c = 1%nat ->
  In c (trace (draw_map E (namespace_of argv))).
Proof.
  intros H Hs.
  apply main_calls in H
    as [H|(Hp & [H|(t & st & Hd & [H|(Hm & [H|(Ha & ->)])])])].
  - apply parse_args_calls in H. congruence.
  - exact H.
  - apply mark_calls in H. congruence.
  - apply annotate_plot_calls in H. congruence.
  - discriminate.
Qed.

(** A call of [mark] or later is made only after [draw_map] has
    returned. *)
Lemma main_later_call E argv c :
  In c (trace (main E argv)) -> (2 <= stage_of c)%nat ->
  exists t st, draw_map E (namespace_of argv) = (t, inr st).
Proof.
  intros H Hs.
  apply main_calls in H
    as [H|(Hp & [H|(t & st & Hd & _)])].
  - apply parse_args_calls in H. lia.
  - apply draw_map_calls in H as [H _]. lia.
  - eauto.
Qed.

(** X3.  Nothing is drawn before the sky map is validated: every call of
    a run other than the opening and the reading of the file is made
    after the sky map has been read, healpy has accepted its length and
    given the pixel area, and the ['gps_time'] of the metadata has been
    converted.  When the command line is accepted, a sky map that cannot
    be read, or whose length healpy refuses, ends the run with that
    exception and nothing drawn. *)
Theorem X3_nothing_drawn_before_validation (E : Env) (argv : list argument) :
  (forall c,
     In c (trace (main E argv)) ->
     (1 <= stage_of c)%nat ->
     (forall name nest, c <> fits_read name nest) ->
     exists skymap md nside area gps_time obstime,
       fits_read_sky_map E (file_name (input_file argv)) = inr (skymap, md) /\
       hp_npix2nside E (length skymap) = inr nside /\
       hp_nside2pixarea E nside = inr area /\
       md !! "gps_time" = Some gps_time /\
       Time_gps_utc_isot E gps_time = inr obstime) /\
  (accepted E argv = true ->
   (forall e,
      fits_read_sky_map E (file_name (input_file argv)) = inl e ->
      main E argv =
      (opens argv ++ [fits_read (file_name (input_file argv)) PyNone], inl e)) /\
   (forall skymap md e,
      fits_read_sky_map E (file_name (input_file argv)) = inr (skymap, md) ->
      hp_npix2nside E (length skymap) = inl e ->
      main E argv =
      (opens argv ++ [fits_read (file_name (input_file argv)) PyNone], inl e))).
Proof.
  split.
  - intros c Hc Hs Hread.
    destruct (Nat.eq_dec (stage_of c) 1%nat) as [H1|H1].
    + apply main_drawing_call in Hc; [|exact H1].
      apply draw_map_call_facts in Hc
        as [->|(skymap & md & nside & area & gps & obstime & H)].
      * now destruct (Hread _ _ eq_refl).
      * exists skymap, md, nside, area, gps, obstime. tauto.
    + destruct (main_later_call E argv c Hc) as (t & st & Hd); [lia|].
      apply draw_map_returns in Hd
        as (nside & gps & obstime & vmax & nest & Hr & Hn & Ha & _ & Hg & Ht
            & _).
      exists (skymap st), (metadata st), nside, (deg2perpix st), gps, obstime.
      auto.
  - intros Hacc.
    assert (Hparse : parse_args E argv = (opens argv, inr (namespace_of argv))).
    { pose proof (parse_args_accepted E argv) as Ho. rewrite Hacc in Ho.
      rewrite (surjective_run (parse_args E argv)), Ho. f_equal.
      eapply parse_args_returns.
      rewrite (surjective_run (parse_args E argv)), Ho. reflexivity. }
    assert (Hmain : main E argv =
                    (opens argv ++ trace (run E (namespace_of argv)),
                     outcome (run E (namespace_of argv))))
      by (unfold main; now apply bind_inr).
    split.
    + intros e Hr. rewrite Hmain. unfold run, draw_map.
      cbn [input namespace_of]. forward. reflexivity.
    + intros skymap md e Hr Hn. rewrite Hmain. unfold run, draw_map.
      cbn [input namespace_of]. forward. reflexivity.
Qed.

Lemma X3_witness :
  (exists skymap md nside area gps_time obstime,
     fits_read_sky_map (env world)
       (file_name (input_file [arg_input "bayestar.fits"])) = inr (skymap, md) /\
     hp_npix2nside (env world) (length skymap) = inr nside /\
     hp_nside2pixarea (env world) nside = inr area /\
     md !! "gps_time" = Some gps_time /\
     Time_gps_utc_isot (env world) gps_time = inr obstime) /\
  main (env piped) [] =
  (opens [] ++ [fits_read (file_name (input_file [])) PyNone],
   inl (FileNotFoundError "<stdin>")).
Proof.
  split.
  - apply (proj1 (X3_nothing_drawn_before_validation (env world)
                    [arg_input "bayestar.fits"]) ax_grid).
    + vm_compute. do 3 right. left. reflexivity.
    + cbn. lia.
    + intros name nest. discriminate.
  - refine (proj1 (proj2 (X3_nothing_drawn_before_validation (env piped) []) _)
              (FileNotFoundError "<stdin>") _);
      vm_compute; reflexivity.
Defined.

(** X4.  The image is drawn in the ICRS frame, in the pixel ordering that
    the metadata gives under ['nest'], on a colour scale from 0 to the
    maximum of the density. *)
Theorem X4_image_scale_and_ordering (E : Env) (argv : list argument)
    (d : list float) (frame : string) (nested : pyval) (vmin vmax : float) :
  In (ax_imshow_hpx d frame nested vmin vmax) (trace (main E argv)) ->
  frame = "ICRS" /\ vmin = 0 /\ ndarray_max E d = inr vmax /\
  exists skymap md,
    fits_read_sky_map E (file_name (input_file argv)) = inr (skymap, md) /\
    md !! "nest" = Some nested.
Proof.
  intros H. apply main_drawing_call in H; [|reflexivity].
  apply draw_map_call_facts in H
    as [H|(skymap & md & nside & area & gps & obstime & Hr & _ & _ & _ & _ & H)];
    [discriminate|].
  destruct H as [H|[H|(vmax' & nest & Hmax & Hnest & H)]]; try discriminate.
  destruct H as [H|[(_ & [H|H])|[(levels & _ & _ & [H|H])|(geoms & _ & _ & H)]]];
    try discriminate.
  injection H as -> -> -> -> ->. eauto 10.
Qed.

Lemma X4_witness :
  "ICRS"%string = "ICRS"%string /\ 0 = 0 /\
  ndarray_max (env world) (map (fun x => x / pixel_area) pixels) =
  inr match amax (map (fun x => x / pixel_area) pixels) with
      | inr vmax => vmax
      | inl _ => 0
      end /\
  exists skymap md,
    fits_read_sky_map (env world)
      (file_name (input_file [arg_input "bayestar.fits"])) = inr (skymap, md) /\
    md !! "nest" = Some (PyBool false).
Proof.
  apply (X4_image_scale_and_ordering (env world) [arg_input "bayestar.fits"]).
  vm_compute. do 4 right. left. reflexivity.
Defined.

(** X5.  The colorbar is drawn only with [--colorbar], and its label is
    ['prob. per deg$^2$']; with [--colorbar] a run that returns has drawn
    it and labelled it. *)
Theorem X5_colorbar_only_on_request (E : Env) (argv : list argument) :
  (forall c,
     In c (trace (main E argv)) ->
     c = plot_colorbar \/ (exists label, c = cb_set_label label) ->
     given_colorbar argv = true /\
     (c = plot_colorbar \/ c = cb_set_label "prob. per deg$^2$")) /\
  (outcome (main E argv) = inr tt ->
   given_colorbar argv = true ->
   In plot_colorbar (trace (main E argv)) /\
   In (cb_set_label "prob. per deg$^2$") (trace (main E argv))).
Proof.
  split.
  - intros c Hc Hkind.
    assert (Hs : stage_of c = 1%nat) by (destruct Hkind as [->|[l ->]]; reflexivity).
    apply main_drawing_call in Hc; [|exact Hs].
    apply draw_map_call_facts in Hc
      as [H|(skymap & md & nside & area & gps & obstime & _ & _ & _ & _ & _ & H)].
    { destruct Hkind as [->|[l ->]]; discriminate. }
    destruct H as [H|[H|(vmax' & nest & _ & _ & H)]];
      [destruct Hkind as [->|[l ->]]; discriminate..|].
    destruct H as [H|[(Hcb & H)|[(levels & _ & _ & [H|H])|(geoms & _ & _ & H)]]];
      try (destruct Hkind as [->|[l ->]]; discriminate).
    split; [exact Hcb|exact H].
  - intros Hret Hcb.
    destruct (main_returns_map_calls E argv Hret)
      as (st & nside & gps & obstime & vmax & nest & _ & _ & _ & _ & _ & _ & Hin).
    split; apply Hin; unfold map_calls; cbn [colorbar namespace_of];
      rewrite Hcb; cbn; tauto.
Qed.

Lemma X5_witness :
  (given_colorbar [arg_colorbar; arg_input "bayestar.fits"] = true /\
   (plot_colorbar = plot_colorbar \/
    plot_colorbar = cb_set_label "prob. per deg$^2$")) /\
  In (cb_set_label "prob. per deg$^2$")
     (trace (main (env world) [arg_colorbar; arg_input "bayestar.fits"])).
Proof.
  split.
  - apply (proj1 (X5_colorbar_only_on_request (env world)
                    [arg_colorbar; arg_input "bayestar.fits"]) plot_colorbar).
    + vm_compute. do 5 right. left. reflexivity.
    + now left.
  - refine (proj2 (proj2 (X5_colorbar_only_on_request (env world)
              [arg_colorbar; arg_input "bayestar.fits"]) _ _));
      vm_compute; reflexivity.
Defined.

Lemma truthy_default {A} (o : option (list A)) :
  truthy o = true -> o = Some (default [] o) /\ default [] o <> [].
Proof. destruct o as [[|x l]|]; try discriminate. now split. Qed.

(** X6.  Contours are drawn only with [--contour]: their data are the
    credible levels of the sky map times 100, in the ICRS frame and the
    pixel ordering of the metadata, black and half a point wide, at the
    percentages of the last [--contour]; they are labelled at the same
    percentages, in 6 point type, with the format that
    [text.usetex] selects. *)
Theorem X6_contours_at_the_percentages (E : Env) (argv : list argument) :
  (forall d frame nested colors linewidths levels,
     In (ax_contour_hpx d frame nested colors linewidths levels)
        (trace (main E argv)) ->
     given_contour argv = Some levels /\ levels <> [] /\
     frame = "ICRS" /\ colors = "k" /\ linewidths = 0.5 /\
     exists skymap md credible,
       fits_read_sky_map E (file_name (input_file argv)) = inr (skymap, md) /\
       find_greedy_credible_levels E skymap = inr credible /\
       d = map (fun x => 100 * x) credible /\
       md !! "nest" = Some nested) /\
  (forall cs fmt fontsize inline,
     In (plt_clabel cs fmt fontsize inline) (trace (main E argv)) ->
     given_contour argv = Some cs /\ cs <> [] /\
     fmt = (if text_usetex E then "%g\%%" else "%g%%") /\
     fontsize = 6%Z /\ inline = true).
Proof.
  split.
  - intros d frame nested colors lw lv H.
    apply main_drawing_call in H; [|reflexivity].
    apply draw_map_call_facts in H
      as [H|(skymap & md & nside & area & gps & obstime & Hr & _ & _ & _ & _ & H)];
      [discriminate|].
    destruct H as [H|[H|(vmax' & nest & _ & Hnest & H)]]; try discriminate.
    destruct H as [H|[(_ & [H|H])|[(levels & Ht & Hl & [H|H])|(geoms & _ & _ & H)]]];
      try discriminate.
    injection H as -> -> -> -> -> ->.
    destruct (truthy_default _ Ht) as [Hc Hne].
    repeat split; try assumption. eauto 10.
  - intros cs fmt fs il H.
    apply main_drawing_call in H; [|reflexivity].
    apply draw_map_call_facts in H
      as [H|(skymap & md & nside & area & gps & obstime & Hr & _ & _ & _ & _ & H)];
      [discriminate|].
    destruct H as [H|[H|(vmax' & nest & _ & Hnest & H)]]; try discriminate.
    destruct H as [H|[(_ & [H|H])|[(levels & Ht & Hl & [H|H])|(geoms & _ & _ & H)]]];
      try discriminate.
    injection H as -> -> -> ->.
    destruct (truthy_default _ Ht) as [Hc Hne].
    repeat split; assumption.
Qed.

Lemma X6_witness :
  given_contour [arg_contour [50]; arg_contour [90; 99];
                 arg_input "bayestar.fits"] = Some [90; 99] /\
  [90; 99] <> [] /\
  "%g%%"%string = (if text_usetex (env world) then "%g\%%" else "%g%%")%string /\
  6%Z = 6%Z /\ true = true.
Proof.
  apply (proj2 (X6_contours_at_the_percentages (env world)
                  [arg_contour [50]; arg_contour [90; 99];
                   arg_input "bayestar.fits"])).
  vm_compute. do 6 right. left. reflexivity.
Defined.

(** X15.  The axes are created at the observation time of the sky map:
    the [obstime] of every [plt.axes] call is the ['gps_time'] of the
    metadata read from the input, converted to a UTC time in ISO
    format. *)
Theorem X15_axes_at_observation_time (E : Env) (argv : list argument)
    (projection obstime : string) :
  In (plt_axes projection obstime) (trace (main E argv)) ->
  exists skymap md gps_time,
    fits_read_sky_map E (file_name (input_file argv)) = inr (skymap, md) /\
    md !! "gps_time" = Some gps_time /\
    Time_gps_utc_isot E gps_time = inr obstime.
Proof.
  intros H. apply main_drawing_call in H; [|reflexivity].
  apply draw_map_call_facts in H
    as [H|(skymap & md & nside & area & gps & obstime' & Hr & _ & _ & Hg & Ht
           & H)];
    [discriminate|].
  destruct H as [H|[H|(vmax & nest & _ & _ & H)]]; try discriminate.
  - injection H as _ ->. eauto 10.
  - destruct H as [H|[(_ & [H|H])|[(levels & _ & _ & [H|H])|(geoms & _ & _ & H)]]];
      discriminate.
Qed.

Lemma X15_witness :
  exists skymap md gps_time,
    fits_read_sky_map (env world)
      (file_name (input_file [arg_input "bayestar.fits"])) = inr (skymap, md) /\
    md !! "gps_time" = Some gps_time /\
    Time_gps_utc_isot (env world) gps_time =
    inr match trace (main (env world) [arg_input "bayestar.fits"]) with
        | _ :: _ :: plt_axes _ obstime :: _ => obstime
        | _ => ""%string
        end.
Proof.
  apply (X15_axes_at_observation_time (env world) [arg_input "bayestar.fits"]
           "astro hours mollweide").
  vm_compute. do 2 right. left. reflexivity.
Defined.

(** ** The continents *)

Lemma mapM_map_compose {A B C} (f : B -> option C) (g : A -> B) (l : list A) :
  mapM f (map g l) = mapM (fun x => f (g x)) l.
Proof. induction l as [|x l IH]; [reflexivity|]. cbn. now rewrite IH. Qed.

Lemma mapM_pointwise {A B} (f g : A -> option B) (l : list A) :
  (forall x, f x = g x) -> mapM f l = mapM g l.
Proof.
  intros H. induction l as [|x l IH]; [reflexivity|]. cbn. now rewrite H, IH.
Qed.

Lemma mapM_total {A B} (g : A -> B) (l : list A) :
  mapM (fun x => Some (g x)) l = Some (map g l).
Proof. induction l as [|x l IH]; [reflexivity|]. cbn. now rewrite IH. Qed.

(** A row that lacks the first entry lacks every entry. *)
Lemma mapM_lookup_none (rows : list (list float)) (j : nat) :
  mapM head rows = None -> mapM (fun r : list float => r !! j) rows = None.
Proof.
  intros H. apply eq_None_not_Some. intros Hsome.
  apply mapM_is_Some in Hsome.
  assert (Hhead : is_Some (mapM head rows)).
  { apply mapM_is_Some. eapply List.Forall_impl; [|exact Hsome].
    intros r [x Hx]. cbn in Hx. destruct r as [|y r]; [|now eexists].
    now rewrite lookup_nil in Hx. }
  rewrite H in Hhead. now destruct Hhead.
Qed.

Lemma zip_star_aux_lookup (first : list float) : forall rows j,
  zip_star_aux first rows !! j =
  if decide (j < length first)%nat
  then mapM (fun r : list float => r !! j) rows else None.
Proof.
  induction first as [|x first IH]; intros rows j.
  - cbn. case_decide; [lia|reflexivity].
  - cbn [zip_star_aux]. destruct (mapM head rows) as [column|] eqn:Hhead.
    + destruct j as [|j].
      * cbn. rewrite <- Hhead. apply mapM_pointwise. intros r.
        now rewrite head_lookup.
      * cbn [lookup list_lookup]. change (zip_star_aux first (map tail rows) !! j =
          if decide (S j < S (length first))%nat
          then mapM (fun r : list float => r !! S j) rows else None).
        rewrite IH, mapM_map_compose.
        rewrite (mapM_pointwise (fun r => tail r !! j) (fun r => r !! S j))
          by (intros r; apply lookup_tail).
        repeat case_decide; (reflexivity || lia).
    + rewrite lookup_nil. case_decide; [|reflexivity].
      symmetry. now apply mapM_lookup_none.
Qed.

(** X7.  [zip] applied to the points of a geometry transposes them: entry
    [j] of the result is the list of the [j]-th coordinates of all points,
    for every [j] that all points have, and there are no further entries.
    For points of two coordinates it is the longitudes, then the
    latitudes. *)
Theorem X7_zip_star_transposes :
  (forall (rows : list (list float)) (j : nat),
     rows <> [] ->
     zip_star rows !! j = mapM (fun r : list float => r !! j) rows) /\
  (forall pts : list (float * float),
     pts <> [] ->
     zip_star (map (fun p => [p.1; p.2]) pts) = [map fst pts; map snd pts]).
Proof.
  assert (Hlookup : forall (rows : list (list float)) (j : nat),
            rows <> [] ->
            zip_star rows !! j = mapM (fun r : list float => r !! j) rows).
  { intros [|first rows] j Hne; [contradiction|].
    unfold zip_star. rewrite zip_star_aux_lookup.
    case_decide as Hj; [reflexivity|].
    cbn. rewrite lookup_ge_None_2 by lia. reflexivity. }
  split; [exact Hlookup|].
  intros pts Hne. apply list_eq. intros j.
  rewrite Hlookup by (destruct pts; [contradiction|discriminate]).
  rewrite mapM_map_compose.
  destruct j as [|[|j]]; cbn [lookup list_lookup].
  - apply (mapM_total fst).
  - apply (mapM_total snd).
  - destruct pts as [|p pts]; [contradiction|]. reflexivity.
Qed.

Lemma X7_witness :
  zip_star [[1; 2; 3]; [4; 5]] !! 1%nat =
  mapM (fun r : list float => r !! 1%nat) [[1; 2; 3]; [4; 5]] /\
  zip_star (map (fun p => [p.1; p.2]) [(-10, 50); (-9, 51); (-8, 52)]) =
  [map fst [(-10, 50); (-9, 51); (-8, 52)];
   map snd [(-10, 50); (-9, 51); (-8, 52)]].
Proof.
  split.
  - apply (proj1 X7_zip_star_transposes). discriminate.
  - apply (proj2 X7_zip_star_transposes). discriminate.
Defined.

Lemma draw_map_returns_geo E opts t st :
  draw_map E opts = (t, inr st) -> geo opts = true ->
  exists geoms,
    coastline_geometries E = inr geoms /\
    In (plt_plot (flat_map zip_star geoms) "0.5" 0.5 "world") t.
Proof.
  unfold draw_map. intros H Hgeo.
  repeat returns_step H; try congruence.
  all: injection H as <- _; eexists; split; [eassumption|];
    cbn; rewrite ?in_app_iff; cbn; tauto.
Qed.

(** X8.  The coastlines are drawn only with [--geo]: grey and half a
    point wide in world coordinates, from the transposed points of each
    geometry of the coastline file.  With [--geo] a run that returns has
    loaded the file and drawn them. *)
Theorem X8_continents_only_with_geo (E : Env) (argv : list argument) :
  (forall verts color linewidth transform,
     In (plt_plot verts color linewidth transform) (trace (main E argv)) ->
     given_geo argv = true /\
     color = "0.5" /\ linewidth = 0.5 /\ transform = "world" /\
     exists geoms,
       coastline_geometries E = inr geoms /\
       verts = flat_map zip_star geoms) /\
  (outcome (main E argv) = inr tt ->
   given_geo argv = true ->
   exists geoms,
     coastline_geometries E = inr geoms /\
     In (plt_plot (flat_map zip_star geoms) "0.5" 0.5 "world")
        (trace (main E argv))).
Proof.
  split.
  - intros verts color lw tr H.
    apply main_drawing_call in H; [|reflexivity].
    apply draw_map_call_facts in H
      as [H|(skymap & md & nside & area & gps & obstime & Hr & _ & _ & _ & _ & H)];
      [discriminate|].
    destruct H as [H|[H|(vmax' & nest & _ & Hnest & H)]]; try discriminate.
    destruct H as [H|[(_ & [H|H])|[(levels & Ht & Hl & [H|H])|(geoms & Hg & Hc & H)]]];
      try discriminate.
    injection H as -> -> -> ->. repeat split; try assumption. eauto.
  - intros Hret Hgeo.
    destruct (main_returns E argv (trace (main E argv)))
      as (t1 & st & radecs & Hb & _ & _ & Ht).
    { rewrite <- Hret. apply surjective_run. }
    apply before_markers_returns in Hb as (_ & t2 & Hd & ->).
    destruct (draw_map_returns_geo _ _ _ _ Hd Hgeo) as (geoms & Hc & Hin).
    exists geoms. split; [exact Hc|]. rewrite Ht, !in_app_iff. auto.
Qed.

Lemma X8_witness :
  exists geoms,
    coastline_geometries (env world) = inr geoms /\
    In (plt_plot (flat_map zip_star geoms) "0.5" 0.5 "world")
       (trace (main (env world) [arg_geo; arg_input "bayestar.fits"])).
Proof.
  refine (proj2 (X8_continents_only_with_geo (env world)
            [arg_geo; arg_input "bayestar.fits"]) _ _);
    vm_compute; reflexivity.
Defined.

(** ** Markers *)

Lemma add_markers_refused E (l1 l2 : list (float * float)) rd e :
  List.Forall (fun rd => SkyCoord_deg E rd.1 rd.2 = inr tt) l1 ->
  SkyCoord_deg E rd.1 rd.2 = inl e ->
  add_markers E (l1 ++ rd :: l2) = (map marker_call l1, inl e).
Proof.
  unfold add_markers. intros Hall Hrd.
  induction Hall as [|[ra dec] l1 Hok _ IH].
  - destruct rd as [ra dec]. cbn [app for_each]. cbn in Hrd.
    rewrite bind_assoc, Hrd. reflexivity.
  - cbn [app for_each]. cbn in Hok.
    rewrite bind_assoc, Hok, extern_inr, emit_bind, IH.
    reflexivity.
Qed.

(** X9.  A coordinate pair that [SkyCoord] refuses ends the run with its
    exception: the stars of the pairs before it are drawn, none after
    it, the text is not outlined and the figure is not written. *)
Theorem X9_refused_coordinate_stops_the_run (E : Env)
    (argv : list argument) (t : list call) (opts : Namespace) (st : Locals)
    (before after : list (float * float)) (refused : float * float)
    (e : exn) :
  before_markers E argv = (t, inr (opts, st)) ->
  collect_radecs E opts (metadata st) =
    ([], inr (before ++ refused :: after)) ->
  List.Forall (fun rd => SkyCoord_deg E rd.1 rd.2 = inr tt) before ->
  SkyCoord_deg E refused.1 refused.2 = inl e ->
  main E argv =
  (t ++ map (fun rd : float * float =>
               ax_plot_coord rd.1 rd.2 "deg" "*" "white" "black" 10) before,
   inl e).
Proof.
  change (fun rd : float * float =>
            ax_plot_coord rd.1 rd.2 "deg" "*" "white" "black" 10)
    with marker_call.
  intros Hb Hc Hok Hbad.
  rewrite main_from_markers, (bind_inr _ _ _ _ Hb).
  unfold mark. rewrite bind_assoc, (bind_inr _ _ _ _ Hc). cbn [app].
  rewrite bind_assoc, (add_markers_refused E _ _ _ _ Hok Hbad).
  reflexivity.
Qed.

Lemma X9_witness :
  main (env world)
    [arg_radec 10 20; arg_radec 0 100; arg_radec 30 40;
     arg_input "bayestar.fits"] =
  (fst (before_markers (env world)
          [arg_radec 10 20; arg_radec 0 100; arg_radec 30 40;
           arg_input "bayestar.fits"])
   ++ [ax_plot_coord 10 20 "deg" "*" "white" "black" 10],
   inl (ValueError
          "Latitude angle(s) must be within -90 deg <= angle <= 90 deg")).
Proof.
  refine (X9_refused_coordinate_stops_the_run (env world)
            [arg_radec 10 20; arg_radec 0 100; arg_radec 30 40;
             arg_input "bayestar.fits"] _
            (namespace_of [arg_radec 10 20; arg_radec 0 100; arg_radec 30 40;
                           arg_input "bayestar.fits"])
            (locals header None) [(10, 20)] [(30, 40)] (0, 100) _ _ _ _ _).
  - vm_compute; reflexivity.
  - vm_compute; reflexivity.
  - repeat constructor.
  - vm_compute; reflexivity.
Defined.

(** ** The annotation and the output *)

(** X10.  [cls] is bound wherever it is read.  The contour block binds
    it under [opts.contour], and the annotation reads it under the same
    condition: in a run that has reached the annotation, [cls] is 100
    times the credible levels of the sky map when [--contour] is given,
    and is unbound, and not read, otherwise.  So the annotation never
    ends in the [NameError] of an unbound name; the only call it makes
    is the text at (1, 1), right-aligned, and only with [--annotate]. *)
Theorem X10_cls_is_bound_where_read (E : Env) (argv : list argument)
    (t : list call) (opts : Namespace) (st : Locals) :
  before_annotation E argv = (t, inr (opts, st)) ->
  (if truthy (contour opts)
   then exists levels,
          find_greedy_credible_levels E (skymap st) = inr levels /\
          cls st = Some (map (fun x => 100 * x) levels)
   else cls st = None) /\
  (forall name, outcome (annotate_plot E opts st) <> inl (NameError name)) /\
  (forall c, In c (trace (annotate_plot E opts st)) ->
     annotate opts = true /\ exists s, c = ax_text 1 1 s "right").
Proof.
  intros Hb.
  apply before_annotation_returns in Hb as (t1 & t2 & Hb & _ & _).
  apply before_markers_returns in Hb as (_ & t3 & Hd & _).
  pose proof (annotate_plot_run E opts st (draw_map_cls _ _ _ _ Hd)) as Hrun.
  apply draw_map_returns in Hd
    as (? & ? & ? & ? & ? & _ & _ & _ & _ & _ & _ & _ & _ & Hcls & _).
  split; [exact Hcls|]. rewrite Hrun. split.
  - intros name. discriminate.
  - intros c Hc. cbn [trace fst] in Hc.
    destruct (annotate opts); [|destruct Hc].
    destruct Hc as [<-|[]]. eauto.
Qed.

Lemma X10_witness :
  exists levels,
    find_greedy_credible_levels (env world) pixels = inr levels /\
    Some percent_levels = Some (map (fun x => 100 * x) levels).
Proof.
  refine (proj1 (X10_cls_is_bound_where_read (env world)
            [arg_contour [90]; arg_input "bayestar.fits"]
            (fst (before_annotation (env world)
                    [arg_contour [90]; arg_input "bayestar.fits"]))
            (namespace_of [arg_contour [90]; arg_input "bayestar.fits"])
            (locals header (Some percent_levels)) _)).
  vm_compute; reflexivity.
Defined.

(** X11.  With [--annotate] and an ['objid'] in the metadata, the text
    starts with the line ['event ID: '] followed by the object
    identifier as [str] gives it; the area lines follow, and without
    [--contour] that line is the whole text. *)
Theorem X11_event_line_comes_first (E : Env) (argv : list argument)
    (t : list call) (opts : Namespace) (st : Locals) (objid : pyval) :
  before_annotation E argv = (t, inr (opts, st)) ->
  annotate opts = true ->
  metadata st !! "objid" = Some objid ->
  main E argv =
  (t ++ [ax_text 1 1
           (join_lines (("event ID: " +:+ py_str E objid)
                        :: contour_area_lines opts st)) "right";
         opts_output],
   inr tt) /\
  (contour opts = None ->
   main E argv =
   (t ++ [ax_text 1 1 ("event ID: " +:+ py_str E objid) "right"; opts_output],
    inr tt)).
Proof.
  intros Hb Han Hobjid.
  destruct (main_from_annotation_returns _ _ _ _ _ Hb) as [Hmain _].
  rewrite Han in Hmain. unfold event_line in Hmain. rewrite Hobjid in Hmain.
  split; [exact Hmain|].
  intros Hnone. rewrite Hmain. unfold contour_area_lines. now rewrite Hnone.
Qed.

Lemma X11_witness :
  main (env world) [arg_annotate; arg_input "bayestar.fits"] =
  (fst (before_annotation (env world)
          [arg_annotate; arg_input "bayestar.fits"])
   ++ [ax_text 1 1 "event ID: G211117" "right"; opts_output],
   inr tt).
Proof.
  refine (proj2 (X11_event_line_comes_first (env world)
            [arg_annotate; arg_input "bayestar.fits"] _
            (namespace_of [arg_annotate; arg_input "bayestar.fits"])
            (locals header None) (PyStr "G211117") _ _ _) _);
    vm_compute; reflexivity.
Defined.

(** ** The whole run *)

Lemma stage_blocks (n m : nat) (t1 t2 : list call) :
  (forall c, In c t1 -> stage_of c = n) -> (n <= m)%nat ->
  StronglySorted (fun c1 c2 => (stage_of c1 <= stage_of c2)%nat) t2 /\
  (forall c, In c t2 -> (m <= stage_of c)%nat) ->
  StronglySorted (fun c1 c2 => (stage_of c1 <= stage_of c2)%nat) (t1 ++ t2) /\
  (forall c, In c (t1 ++ t2) -> (n <= stage_of c)%nat).
Proof.
  intros H1 Hnm [Hs H2].
  assert (Hall : forall c, In c (t1 ++ t2) -> (n <= stage_of c)%nat).
  { intros c Hc. apply in_app_iff in Hc as [Hc|Hc].
    - rewrite (H1 _ Hc). lia.
    - specialize (H2 _ Hc). lia. }
  split; [|exact Hall].
  induction t1 as [|c t1 IH]; [exact Hs|].
  cbn [app]. constructor.
  - apply IH.
    + intros c' Hc'. apply H1. now right.
    + intros c' Hc'. apply Hall. now right.
  - apply List.Forall_forall. intros c' Hc'.
    rewrite (H1 c (or_introl eq_refl)). apply Hall. now right.
Qed.

(** X12.  In every run, also one that fails, the calls come in the order
    of the blocks of [main]: the opening of the file, then the reading of
    the sky map and the drawing of the map (axes, grid, image, colorbar,
    contours, continents), then the markers and the outline of the text,
    then the annotation, then the output.  No part of the map is drawn
    after a marker, and no marker after the annotation. *)
Theorem X12_calls_follow_the_blocks (E : Env) (argv : list argument) :
  StronglySorted (fun c1 c2 => (stage_of c1 <= stage_of c2)%nat)
    (trace (main E argv)).
Proof.
  rewrite main_trace.
  eapply proj1, (stage_blocks 0 1); [apply parse_args_calls|lia|].
  destruct (outcome (parse_args E argv)) as [e|opts];
    [split; [constructor|intros c []]|].
  apply (stage_blocks 1 2);
    [intros c H; apply (draw_map_calls _ _ _ H)|lia|].
  destruct (outcome (draw_map E opts)) as [e|st];
    [split; [constructor|intros c []]|].
  apply (stage_blocks 2 3); [apply mark_calls|lia|].
  destruct (outcome (mark E opts st)) as [e|[]];
    [split; [constructor|intros c []]|].
  apply (stage_blocks 3 4); [apply annotate_plot_calls|lia|].
  destruct (outcome (annotate_plot E opts st)) as [e|[]].
  - split; [constructor|intros c []].
  - split; [repeat constructor|intros c [<-|[]]; cbn; lia].
Qed.

Lemma filter_none {A} (f : A -> bool) (l : list A) :
  (forall x, In x l -> f x = false) -> List.filter f l = [].
Proof.
  induction l as [|x l IH]; intros H; [reflexivity|].
  cbn. rewrite (H x (or_introl eq_refl)). apply IH.
  intros y Hy. apply H. now right.
Qed.

Lemma filter_other_stage (f : call -> bool) (n m : nat) (t : list call) :
  (forall c, f c = true -> stage_of c = n) ->
  (forall c, In c t -> stage_of c = m) -> m <> n ->
  List.filter f t = [].
Proof.
  intros Hf Ht Hmn. apply filter_none. intros c Hc.
  destruct (f c) eqn:Hfc; [|reflexivity].
  apply Hf in Hfc. apply Ht in Hc. congruence.
Qed.

Lemma is_fits_read_stage c : is_fits_read c = true -> stage_of c = 1%nat.
Proof. now destruct c. Qed.

Lemma is_output_stage c : is_output c = true -> stage_of c = 4%nat.
Proof. now destruct c. Qed.

Lemma draw_map_reads_once E opts :
  List.filter is_fits_read (trace (draw_map E opts)) =
  [fits_read (file_name (input opts)) PyNone].
Proof.
  unfold draw_map. rewrite trace_emit. cbn [List.filter is_fits_read].
  f_equal. apply filter_none. cbn beta. intros c H.
  repeat in_trace_step H.
  all: subst c; reflexivity.
Qed.

(** X13.  A run never reads the sky map twice and never writes the
    figure twice: the reader is called once when the command line is
    accepted (also when the reading then fails) and not at all
    otherwise; the figure is written once when the run returns and not
    at all when it fails. *)
Theorem X13_one_reading_one_writing (E : Env) (argv : list argument) :
  List.filter is_fits_read (trace (main E argv)) =
    (if accepted E argv
     then [fits_read (file_name (input_file argv)) PyNone] else []) /\
  List.filter is_output (trace (main E argv)) =
    (match outcome (main E argv) with
     | inr _ => [opts_output]
     | inl _ => []
     end).
Proof.
  split.
  - rewrite main_trace, List.filter_app.
    rewrite (filter_other_stage is_fits_read 1 0 _ is_fits_read_stage
               (parse_args_calls E argv)) by lia.
    cbn [app]. rewrite (parse_args_accepted E argv).
    destruct (accepted E argv); [|reflexivity].
    rewrite List.filter_app, draw_map_reads_once.
    cbn [app input namespace_of]. f_equal.
    destruct (outcome (draw_map E (namespace_of argv))) as [e|st];
      [reflexivity|].
    rewrite List.filter_app.
    rewrite (filter_other_stage is_fits_read 1 2 _ is_fits_read_stage
               (mark_calls E _ st)) by lia.
    cbn [app].
    destruct (outcome (mark E (namespace_of argv) st)) as [e|[]];
      [reflexivity|].
    rewrite List.filter_app.
    rewrite (filter_other_stage is_fits_read 1 3 _ is_fits_read_stage
               (annotate_plot_calls E _ st)) by lia.
    now destruct (outcome (annotate_plot E (namespace_of argv) st)) as [e|[]].
  - rewrite main_trace, List.filter_app.
    rewrite (filter_other_stage is_output 4 0 _ is_output_stage
               (parse_args_calls E argv)) by lia.
    unfold main, run. rewrite outcome_bind.
    destruct (outcome (parse_args E argv)) as [e|opts]; [reflexivity|].
    rewrite List.filter_app.
    rewrite (filter_other_stage is_output 4 1 (trace (draw_map E opts))
               is_output_stage) by
      (lia || (intros c H; apply (draw_map_calls _ _ _ H))).
    rewrite outcome_bind.
    destruct (outcome (draw_map E opts)) as [e|st]; [reflexivity|].
    rewrite List.filter_app.
    rewrite (filter_other_stage is_output 4 2 _ is_output_stage
               (mark_calls E opts st)) by lia.
    rewrite outcome_bind.
    destruct (outcome (mark E opts st)) as [e|[]]; [reflexivity|].
    rewrite List.filter_app.
    rewrite (filter_other_stage is_output 4 3 _ is_output_stage
               (annotate_plot_calls E opts st)) by lia.
    rewrite outcome_bind.
    now destruct (outcome (annotate_plot E opts st)) as [e|[]].
Qed.

(** ** The pixel counts of the annotation *)

Lemma count_if_le_length {A} (f : A -> bool) (l : list A) :
  (count_if f l <= length l)%nat.
Proof.
  induction l as [|x l IH]; [reflexivity|].
  cbn [count_if length]. destruct (f x); lia.
Qed.

Lemma count_if_mono {A} (f g : A -> bool) (l : list A) :
  (forall x, f x = true -> g x = true) ->
  (count_if f l <= count_if g l)%nat.
Proof.
  intros Hfg. induction l as [|x l IH]; [reflexivity|].
  cbn [count_if]. destruct (f x) eqn:Hf.
  - rewrite (Hfg _ Hf). lia.
  - destruct (g x); lia.
Qed.

Lemma count_if_ext {A} (f g : A -> bool) (l : list A) :
  (forall x, f x = g x) -> count_if f l = count_if g l.
Proof.
  intros Hfg. induction l as [|x l IH]; [reflexivity|].
  cbn [count_if]. now rewrite Hfg, IH.
Qed.

Lemma np_lt_nan (x : float) : np_lt x nan = negb (is_nan x).
Proof.
  unfold np_lt.
  assert (H : (x <? nan) = false).
  { rewrite FloatAxioms.ltb_spec. unfold SFltb.
    replace (Prim2SF nan) with S754_nan by reflexivity.
    now destruct (Prim2SF x) as [[]|[]| |[] ? ?]. }
  rewrite H. reflexivity.
Qed.

(** X14.  The pixel count that line 152 takes for a percentage, by
    searching the sorted credible levels, is never more than the number
    of pixels, and a larger percentage never gets a smaller count: the
    regions nest.  For a percentage that is nan the count is the number
    of pixels whose level is a number. *)
Theorem X14_pixel_counts_nest (cls : list float) (p q : float) :
  (searchsorted1 (np_sort cls) p <= length cls)%nat /\
  ((p <? q) = true ->
   (searchsorted1 (np_sort cls) p <= searchsorted1 (np_sort cls) q)%nat) /\
  searchsorted1 (np_sort cls) nan =
    count_if (fun x => negb (is_nan x)) cls.
Proof.
  rewrite !Sorting.searchsorted_counts. split; [|split].
  - apply count_if_le_length.
  - intros Hpq. apply count_if_mono. intros x Hx.
    apply (FloatOrder.np_lt_trans x p q Hx).
    unfold np_lt. now rewrite Hpq.
  - apply count_if_ext, np_lt_nan.
Qed.

Lemma X14_witness :
  (searchsorted1 (np_sort [30; nan; 95; 60; 10]%float) 50 <=
   searchsorted1 (np_sort [30; nan; 95; 60; 10]%float) 90)%nat.
Proof.
  refine (proj1 (proj2 (X14_pixel_counts_nest [30; nan; 95; 60; 10]%float 50 90)) _).
  reflexivity.
Defined.

End Extras.
